(** * fairtest: multiple-testing correction of investigation statistics

    A shallow embedding of [fairtest/modules/statistics/multiple_testing.py]
    ([compute_all_stats], [num_hypotheses], [compute_stats]) together with
    the properties its specification states about it.

    Conventions of the embedding.
    - A Python exception is an outcome [Raise e]; a normal return is [Ok a].
    - Calls that leave the module ([logging.info], [metric.compute],
      [multipletests]) are recorded, in program order, in a trace of
      [Event]s next to the outcome (a writer monad with errors, [M]).
    - A Python [dict] is an association list with pairwise distinct keys
      whose list order is the order in which the dictionary iterates.  The
      order in which a dictionary freshly built by a comprehension iterates
      is a parameter [iter_order] of the development: the language fixes it
      only up to a permutation of the keys.
    - A metric is what the specification makes of it: [compute] returns
      fresh statistics and leaves the metric's reference [stats], which
      the module reads only for their shape, as they are.  A metric that
      raises is outside the model: the module has no handler and the
      exception would leave it as it came.
    - Numbers ([level], p-values) are kept abstract behind a record of
      operations; the structural results hold for any instance, arithmetic
      results are proved over the rationals [Q], and binary64 floats are an
      instance used to evaluate the code as the interpreter does. *)

From Stdlib Require Import String.
From Stdlib Require Import List Bool Arith ZArith QArith Qminmax Lia Lqa.
From Stdlib Require Import Permutation Floats.
Import ListNotations.

Set Implicit Arguments.
Local Open Scope nat_scope.

(** ** Outcomes and the effect monad *)

Inductive exn : Set :=
| ZeroDivisionError
| IndexError
| KeyError
| TypeError
| ValueError
| Unsupported. (* outside the model: [pd.concat] of frames whose column
                  labels differ (pandas aligns them and fills with NaN),
                  or of a list that holds a flat row (pandas refuses an
                  array and aligns a Series) *)

Inductive result (A : Type) : Type :=
| Ok (a : A)
| Raise (e : exn).

Arguments Ok {A} a.
Arguments Raise {A} e.

Definition rbind {A B} (r : result A) (f : A -> result B) : result B :=
  match r with
  | Ok a => f a
  | Raise e => Raise e
  end.

Declare Scope py_scope.
Delimit Scope py_scope with py.

Notation "x <-- r ;; k" := (rbind r (fun x => k))
  (at level 61, r at next level, right associativity) : py_scope.
Notation "' pat <-- r ;; k" := (rbind r (fun x => match x with pat => k end))
  (at level 61, pat pattern, r at next level, right associativity) : py_scope.

Local Open Scope py_scope.

Fixpoint rmap {A B} (f : A -> result B) (l : list A) : result (list B) :=
  match l with
  | [] => Ok []
  | a :: l' => b <-- f a ;; bs <-- rmap f l' ;; Ok (b :: bs)
  end.

(** [l[i]] for a non-negative index. *)
Definition getitem {A} (l : list A) (i : nat) : result A :=
  match nth_error l i with
  | Some a => Ok a
  | None => Raise IndexError
  end.

(** Python 2 integer division [a / b] on non-negative integers. *)
Definition floordiv (a b : nat) : result nat :=
  match b with
  | O => Raise ZeroDivisionError
  | S _ => Ok (a / b)
  end.

(** ** Numbers *)

Record Arith (F : Type) : Type := {
  one : F;                      (* the literal [1] *)
  floor : F;                    (* the literal [1e-180] *)
  sub : F -> F -> F;            (* [a - b] *)
  div : F -> F -> F;            (* [a / b], float division, [b] non-zero *)
  of_nat : nat -> F;            (* the float of a non-negative int *)
  ltb : F -> F -> bool          (* [a < b] *)
}.

(** The builtin [max(a, b)]: keeps [a] unless [b > a]. *)
Definition pymax {F} (ops : Arith F) (a b : F) : F :=
  if ltb ops a b then b else a.

(** Exact arithmetic. *)
Definition Qops : Arith Q := {|
  one := 1%Q;
  floor := (1 # (10 ^ 180))%Q;
  sub := Qminus;
  div := Qdiv;
  of_nat := fun n => inject_Z (Z.of_nat n);
  ltb := fun a b => negb (Qle_bool b a)
|}.

(** IEEE 754 binary64, the [float] of the interpreter.  [0x1.0991a9bfa58c8p-598]
    is the double nearest to [1e-180]. *)
Definition Fops : Arith float := {|
  one := 1%float;
  floor := 0x1.0991a9bfa58c8p-598%float;
  sub := PrimFloat.sub;
  div := PrimFloat.div;
  of_nat := fun n => PrimFloat.of_uint63 (Uint63.of_Z (Z.of_nat n));
  ltb := PrimFloat.ltb
|}.

(** ** Calls that leave the module *)

Inductive Event (Data F : Type) : Type :=
| LogInfo (total_hypotheses : nat)
    (* [logging.info('Testing %d hypotheses', total_hypotheses)] *)
| Compute (data : Data) (level : F) (exact : bool)
    (* [c.metric.compute(c.data, level, exact=exact)] *)
| Multipletests (pvals : list F) (alpha : F).
    (* [multipletests(pvals, alpha=alpha, method='holm')] *)

Arguments LogInfo {Data F} total_hypotheses.
Arguments Compute {Data F} data level exact.
Arguments Multipletests {Data F} pvals alpha.

(** A computation: the calls it made, in order, and how it ended. *)
Definition M (E A : Type) : Type := (list E * result A)%type.

Definition ret {E A} (a : A) : M E A := ([], Ok a).

Definition tell {E} (ev : E) : M E unit := ([ev], Ok tt).

Definition lift {E A} (r : result A) : M E A := ([], r).

Definition bind {E A B} (m : M E A) (f : A -> M E B) : M E B :=
  match m with
  | (t, Ok a) => let (t', r) := f a in (t ++ t', r)
  | (t, Raise e) => (t, Raise e)
  end.

Definition trace {E A} (m : M E A) : list E := fst m.
Definition outcome {E A} (m : M E A) : result A := snd m.

Notation "x <- m ;; k" := (bind m (fun x => k))
  (at level 61, m at next level, right associativity) : py_scope.
Notation "m ;;; k" := (bind m (fun _ => k))
  (at level 61, right associativity) : py_scope.

Fixpoint mapM {E A B} (f : A -> M E B) (l : list A) : M E (list B) :=
  match l with
  | [] => ret []
  | a :: l' => b <- f a ;; bs <- mapM f l' ;; ret (b :: bs)
  end.

(** ** Dictionaries *)

Section Dict.

Variable K : Type.
Variable K_eq_dec : forall a b : K, {a = b} + {a <> b}.

(** Association list in iteration order. *)
Definition dict (V : Type) : Type := list (K * V).

Definition keys {V} (d : dict V) : list K := map fst d.
Definition values {V} (d : dict V) : list V := map snd d.

Fixpoint dict_find {V} (k : K) (d : dict V) : option V :=
  match d with
  | [] => None
  | (k', v) :: d' => if K_eq_dec k k' then Some v else dict_find k d'
  end.

(** [d[k]] *)
Definition dict_get {V} (k : K) (d : dict V) : result V :=
  match dict_find k d with
  | Some v => Ok v
  | None => Raise KeyError
  end.

(** [d[k] = v] for a key that is present: the slot keeps its place. *)
Fixpoint dict_set {V} (k : K) (v : V) (d : dict V) : dict V :=
  match d with
  | [] => [(k, v)]
  | (k', v') :: d' =>
      if K_eq_dec k k' then (k, v) :: d' else (k', v') :: dict_set k v d'
  end.

(** The iteration order of a dictionary built from nothing by inserting
    the given keys one after the other. *)
Variable iter_order : list K -> list K.

(** [{k: v for (k, v) in items}] for items with pairwise distinct keys. *)
Definition dict_of_items {V} (items : list (K * V)) : dict V :=
  flat_map (fun k => match dict_find k items with
                     | Some v => [(k, v)]
                     | None => []
                     end)
           (iter_order (map fst items)).

(** [sorted(d.iteritems())]: by key, the keys being pairwise distinct. *)
Variable K_leb : K -> K -> bool.

Fixpoint insert_sorted {V} (kv : K * V) (l : list (K * V)) : list (K * V) :=
  match l with
  | [] => [kv]
  | kv' :: l' =>
      if K_leb (fst kv) (fst kv') then kv :: l else kv' :: insert_sorted kv l'
  end.

Definition sorted {V} (d : dict V) : list (K * V) :=
  fold_right insert_sorted [] d.

End Dict.

Arguments dict_of_items {K} K_eq_dec iter_order {V} items.
Arguments sorted {K} K_leb {V} d.

(** ** Tables and rows (the part of pandas and numpy the module uses) *)

Section Frames.

Variables Label F : Type.
Variable Label_eq_dec : forall a b : Label, {a = b} + {a <> b}.

(** A [pd.DataFrame]: column labels and labelled rows. *)
Record DataFrame : Type := {
  columns : list Label;
  rows : list (Label * list F)
}.

(** [len(df)] *)
Definition len (df : DataFrame) : nat := length (rows df).

(** The value of a [.stats] attribute: a flat row ending in a p-value,
    or a labelled table whose last column holds the p-values. *)
Inductive Stats : Type :=
| Row (r : list F)
| Table (df : DataFrame).

(** An element of the list handed to [pd.concat].  What pandas does with
    a flat row there depends on the row's Python type; the model follows
    the tables only. *)
Definition as_frame (s : Stats) : result DataFrame :=
  match s with
  | Table df => Ok df
  | Row _ => Raise Unsupported
  end.

Definition same_columns (df0 df : DataFrame) : bool :=
  if list_eq_dec Label_eq_dec (columns df) (columns df0) then true else false.

(** [pd.concat(objs)], row-wise, for frames that share their columns. *)
Definition pd_concat (objs : list Stats) : result DataFrame :=
  dfs <-- rmap as_frame objs ;;
  match dfs with
  | [] => Raise ValueError
  | df0 :: _ =>
      if forallb (same_columns df0) dfs
      then Ok {| columns := columns df0; rows := concat (map rows dfs) |}
      else Raise Unsupported
  end.

Definition as_row (s : Stats) : result (list F) :=
  match s with
  | Row r => Ok r
  | Table _ => Raise ValueError
  end.

(** [pd.DataFrame(values, index=index, columns=cols)] for a 2-d array. *)
Definition pd_DataFrame (values : list Stats) (index cols : list Label)
  : result DataFrame :=
  rs <-- rmap as_row values ;;
  if length rs =? length index
  then Ok {| columns := cols; rows := combine index rs |}
  else Raise ValueError.

(** [np.array_split]: [Ntotal % Nsections] sections of [Ntotal // Nsections + 1]
    rows, then the others of [Ntotal // Nsections] rows. *)
Definition section_sizes (Ntotal Nsections : nat) : list nat :=
  repeat (S (Ntotal / Nsections)) (Ntotal mod Nsections)
  ++ repeat (Ntotal / Nsections) (Nsections - Ntotal mod Nsections).

Fixpoint split_sizes {A} (sizes : list nat) (l : list A) : list (list A) :=
  match sizes with
  | [] => []
  | n :: sizes' => firstn n l :: split_sizes sizes' (skipn n l)
  end.

Definition np_array_split (df : DataFrame) (Nsections : nat)
  : result (list DataFrame) :=
  match Nsections with
  | O => Raise ValueError
  | S _ =>
      Ok (map (fun rs => {| columns := columns df; rows := rs |})
              (split_sizes (section_sizes (len df) Nsections) (rows df)))
  end.

(** [stat[-1]] *)
Definition last_field (stat : Stats) : result F :=
  match stat with
  | Row r => match rev r with
             | [] => Raise IndexError
             | p :: _ => Ok p
             end
  | Table _ => Raise KeyError
  end.

(** [np.append(old_stats[0:-1], p)]; on a table the slice drops the last
    row and [np.append] flattens what is left.  The scatter pass comes
    after the flatten pass, which has read [stat[-1]] of every row: it
    meets neither a table nor a row without fields.  The result is stored
    as it is, which is what the assignment does in the Python list of a
    scalar attribute; in the array of a tabular attribute numpy converts
    it to the array's dtype, taken here to be that of the p-values. *)
Definition replace_pval (old_stats : Stats) (p : F) : Stats :=
  match old_stats with
  | Row r => Row (removelast r ++ [p])
  | Table df => Row (concat (map snd (removelast (rows df))) ++ [p])
  end.

End Frames.

Arguments Row {Label F} r.
Arguments Table {Label F} df.

(** ** The module *)

Section MultipleTesting.

Variables K Label Data F : Type.
Variable K_eq_dec : forall a b : K, {a = b} + {a <> b}.
Variable K_leb : K -> K -> bool.
Variable Label_eq_dec : forall a b : Label, {a = b} + {a <> b}.
Variable ops : Arith F.
Variable iter_order : list K -> list K.

(** [multipletests(pvals, alpha=alpha, method='holm')[1]], from
    statsmodels: the corrected p-values, or the exception it raises. *)
Variable multipletests : F -> list F -> result (list F).

#[local] Abbreviation Stats := (Stats Label F).
#[local] Abbreviation Ev := (Event Data F).

(** A metric: its reference [stats] (read only for their shape) and its
    [compute] operation, which returns fresh statistics. *)
Record Metric : Type := {
  stats : Stats;
  compute : Data -> F -> bool -> Stats
}.

Record Ctx : Type := {
  metric : Metric;
  data : Data
}.

Record Investigation : Type := {
  contexts : dict K (list Ctx)
}.

(** The dictionary [{'stats': ..., 'index': ..., 'cols': ...}] that
    [compute_stats] returns; ['index'] and ['cols'] are present for
    tabular metrics only. *)
Record StatsDict : Type := {
  d_stats : list Stats;
  d_index : option (list Label);
  d_cols : option (list Label)
}.

Definition item {A} (o : option A) : result A :=
  match o with
  | Some a => Ok a
  | None => Raise KeyError
  end.

(** *** [num_hypotheses] *)

Fixpoint num_hypotheses_loop (vals : list (list Ctx)) (tot : nat)
  : result nat :=
  match vals with
  | [] => Ok tot
  | ctxts :: vals' =>
      match ctxts with
      | [] => Raise IndexError                       (* contexts[0] *)
      | c0 :: _ =>
          match stats (metric c0) with
          | Table df =>
              num_hypotheses_loop vals' (tot + length ctxts * len df)
          | Row _ =>
              num_hypotheses_loop vals' (tot + length ctxts)
          end
      end
  end.

Definition num_hypotheses (inv : Investigation) : result nat :=
  num_hypotheses_loop (values (contexts inv)) 0.

(** *** [compute_stats] *)

Definition call_compute (exact : bool) (level : F) (c : Ctx) : M Ev Stats :=
  tell (Compute (data c) level exact) ;;;
  ret (compute (metric c) (data c) level exact).

Definition compute_stats (ctxts : list Ctx) (exact : bool) (level : F)
  : M Ev StatsDict :=
  m <- lift (match ctxts with
             | [] => Raise IndexError                (* contexts[0] *)
             | c0 :: _ => Ok (metric c0)
             end) ;;
  sts <- mapM (call_compute exact level) ctxts ;;
  match stats m with
  | Table _ =>
      df <- lift (pd_concat Label_eq_dec sts) ;;
      ret {| d_stats := map Row (map snd (rows df));
             d_index := Some (map fst (rows df));
             d_cols := Some (columns df) |}
  | Row _ =>
      ret {| d_stats := sts; d_index := None; d_cols := None |}
  end.

(** *** [compute_all_stats] *)

(** [sum([num_hypotheses(inv) for inv in investigations])] *)
Definition total_hypotheses (investigations : list Investigation)
  : result nat :=
  ns <-- rmap num_hypotheses investigations ;;
  Ok (list_sum ns).

(** [1-(1-level)/total_hypotheses] *)
Definition adj_level (level : F) (total : nat) : result F :=
  match total with
  | O => Raise ZeroDivisionError
  | S _ =>
      Ok (sub ops (one ops) (div ops (sub ops (one ops) level)
                                     (of_nat ops total)))
  end.

(** [{sens: compute_stats(ctxts, exact, adj_level)
      for (sens, ctxts) in sorted(inv.contexts.iteritems())}] *)
Definition compute_inv (exact : bool) (adj : F) (inv : Investigation)
  : M Ev (dict K StatsDict) :=
  items <- mapM (fun kv => r <- compute_stats (snd kv) exact adj ;;
                           ret (fst kv, r))
                (sorted K_leb (contexts inv)) ;;
  ret (dict_of_items K_eq_dec iter_order items).

(** The stat rows in the order of the flatten pass. *)
Definition flat_stats (all_stats : list (dict K StatsDict)) : list Stats :=
  flat_map (fun inv_stats => flat_map d_stats (values inv_stats)) all_stats.

(** [[max(stat[-1], 1e-180) for inv_stats in all_stats
      for sens_stats in inv_stats.values() for stat in sens_stats['stats']]] *)
Definition all_pvals (all_stats : list (dict K StatsDict))
  : result (list F) :=
  rmap (fun stat => p <-- last_field stat ;; Ok (pymax ops p (floor ops)))
       (flat_stats all_stats).

(** The innermost loop of the scatter pass, over
    [range(len(sens_stats))]. *)
Fixpoint scatter_rows (sens_stats : list Stats) (pvals_corr : list F)
         (idx : nat) : result (list Stats * nat) :=
  match sens_stats with
  | [] => Ok ([], idx)
  | old_stats :: rest =>
      p <-- getitem pvals_corr idx ;;
      ' (rest', idx') <-- scatter_rows rest pvals_corr (S idx) ;;
      Ok (replace_pval old_stats p :: rest', idx')
  end.

(** [for (sens, sens_contexts) in inv.contexts.iteritems()] *)
Fixpoint scatter_inv (items : list (K * list Ctx))
         (inv_stats : dict K StatsDict) (pvals_corr : list F) (idx : nat)
  : result (dict K StatsDict * nat) :=
  match items with
  | [] => Ok (inv_stats, idx)
  | (sens, _) :: items' =>
      res <-- dict_get K_eq_dec sens inv_stats ;;
      ' (new_stats, idx') <-- scatter_rows (d_stats res) pvals_corr idx ;;
      scatter_inv items'
        (dict_set K_eq_dec sens
           {| d_stats := new_stats;
              d_index := d_index res; d_cols := d_cols res |} inv_stats)
        pvals_corr idx'
  end.

(** [for inv_idx, inv in enumerate(investigations)] *)
Fixpoint scatter (investigations : list Investigation)
         (all_stats : list (dict K StatsDict)) (pvals_corr : list F)
         (idx : nat) : result (list (dict K StatsDict)) :=
  match investigations with
  | [] => Ok all_stats
  | inv :: investigations' =>
      match all_stats with
      | [] => Raise IndexError                       (* all_stats[inv_idx] *)
      | inv_stats :: all_stats' =>
          ' (inv_stats', idx') <--
            scatter_inv (contexts inv) inv_stats pvals_corr idx ;;
          rest <-- scatter investigations' all_stats' pvals_corr idx' ;;
          Ok (inv_stats' :: rest)
      end
  end.

(** The regression branch of the reassembly pass for one attribute. *)
Definition reform (ref : DataFrame Label F) (res : StatsDict)
  : result StatsDict :=
  index <-- item (d_index res) ;;
  cols <-- item (d_cols res) ;;
  df <-- pd_DataFrame (d_stats res) index cols ;;
  n <-- floordiv (len df) (len ref) ;;
  parts <-- np_array_split df n ;;
  Ok {| d_stats := map Table parts; d_index := None; d_cols := None |}.

Fixpoint reassemble_inv (items : list (K * list Ctx))
         (inv_stats : dict K StatsDict) : result (dict K StatsDict) :=
  match items with
  | [] => Ok inv_stats
  | (sens, sens_contexts) :: items' =>
      match sens_contexts with
      | [] => Raise IndexError                       (* sens_contexts[0] *)
      | c0 :: _ =>
          match stats (metric c0) with
          | Table ref =>
              res <-- dict_get K_eq_dec sens inv_stats ;;
              res' <-- reform ref res ;;
              reassemble_inv items' (dict_set K_eq_dec sens res' inv_stats)
          | Row _ => reassemble_inv items' inv_stats
          end
      end
  end.

Fixpoint reassemble (investigations : list Investigation)
         (all_stats : list (dict K StatsDict))
  : result (list (dict K StatsDict)) :=
  match investigations with
  | [] => Ok all_stats
  | inv :: investigations' =>
      match all_stats with
      | [] => Raise IndexError
      | inv_stats :: all_stats' =>
          inv_stats' <-- reassemble_inv (contexts inv) inv_stats ;;
          rest <-- reassemble investigations' all_stats' ;;
          Ok (inv_stats' :: rest)
      end
  end.

(** [{sens: sens_stats['stats'] for (sens, sens_stats) in inv_stats.iteritems()}] *)
Definition strip (inv_stats : dict K StatsDict) : dict K (list Stats) :=
  dict_of_items K_eq_dec iter_order
    (map (fun kv => (fst kv, d_stats (snd kv))) inv_stats).

Definition compute_all_stats (investigations : list Investigation)
           (exact : bool) (level : F) : M Ev (list (dict K (list Stats))) :=
  total <- lift (total_hypotheses investigations) ;;
  tell (LogInfo total) ;;;
  adj <- lift (adj_level level total) ;;
  all_stats <- mapM (compute_inv exact adj) investigations ;;
  pvals <- lift (all_pvals all_stats) ;;
  tell (Multipletests pvals (sub ops (one ops) level)) ;;;
  pvals_corr <- lift (multipletests (sub ops (one ops) level) pvals) ;;
  all_stats <- lift (scatter investigations all_stats pvals_corr 0) ;;
  all_stats <- lift (reassemble investigations all_stats) ;;
  ret (map strip all_stats).

End MultipleTesting.

Arguments stats {Label Data F} m.
Arguments compute {Label Data F} m _ _ _.
Arguments metric {Label Data F} c.
Arguments data {Label Data F} c.
Arguments contexts {K Label Data F} i.
Arguments d_stats {Label F} s.
Arguments d_index {Label F} s.
Arguments d_cols {Label F} s.

(** ** The Holm correction *)

(** Modelled from the spec: [multipletests(pvals, alpha, method='holm')] is
    statsmodels' function, not part of this repository.  The spec asks for
    a Holm step-down correction, one corrected p-value per input p-value
    in the order of the input; this is the standard procedure as
    statsmodels carries it out: sort the p-values, multiply the one of
    rank [r] (from 0) by [ntests - r], take the running maximum, cap at 1,
    and put the values back in the order of the input.  The first thing
    the function does with [ntests] is [1./ntests]. *)

Fixpoint insert_by_pval (x : Q * nat) (l : list (Q * nat)) : list (Q * nat) :=
  match l with
  | [] => [x]
  | y :: l' =>
      if Qle_bool (fst x) (fst y) then x :: l else y :: insert_by_pval x l'
  end.

(** The p-values in ascending order, each with its position in the input. *)
Definition argsort (pvals : list Q) : list (Q * nat) :=
  fold_right insert_by_pval [] (combine pvals (seq 0 (length pvals))).

(** [pvals * np.arange(ntests, 0, -1)] *)
Fixpoint step_down (ntests : nat) (l : list (Q * nat)) : list (Q * nat) :=
  match l with
  | [] => []
  | (p, i) :: l' =>
      (p * inject_Z (Z.of_nat ntests), i)%Q :: step_down (pred ntests) l'
  end.

(** [np.maximum.accumulate] *)
Fixpoint accumulate_from (m : Q) (l : list (Q * nat)) : list (Q * nat) :=
  match l with
  | [] => []
  | (v, i) :: l' => (Qmax m v, i) :: accumulate_from (Qmax m v) l'
  end.

Definition maximum_accumulate (l : list (Q * nat)) : list (Q * nat) :=
  match l with
  | [] => []
  | (v, i) :: l' => (v, i) :: accumulate_from v l'
  end.

(** [pvals_corrected[pvals_corrected > 1] = 1] *)
Definition cap (v : Q) : Q := if Qle_bool v 1 then v else 1%Q.

Fixpoint at_index (i : nat) (l : list (Q * nat)) : Q :=
  match l with
  | [] => 0%Q
  | (v, j) :: l' => if i =? j then v else at_index i l'
  end.

Definition holm (alpha : Q) (pvals : list Q) : result (list Q) :=
  match pvals with
  | [] => Raise ZeroDivisionError
  | _ :: _ =>
      let ntests := length pvals in
      let corrected :=
        map (fun vi => (cap (fst vi), snd vi))
            (maximum_accumulate (step_down ntests (argsort pvals))) in
      Ok (map (fun i => at_index i corrected) (seq 0 ntests))
  end.

(** ** Iteration order of the interpreter's dictionaries *)

(** A dictionary that iterates in insertion order ([OrderedDict]). *)
Definition insertion_order {K} (ks : list K) : list K := ks.

(** CPython 2.7 ([iteritems] dates the module to Python 2): a dictionary
    of at most five keys is an open-addressing table of 8 slots that
    iterates slot by slot.  A key of hash [h] goes to slot [h & 7] or, when
    that is taken by another key, to the first free slot of the probe
    sequence [i = 5*i + perturb + 1], [perturb] starting at [h] and
    shifted right by 5 at each step.  A small non-negative [int] is its
    own hash. *)
Module Py27.

Definition table : Type := list (option Z).

Definition empty : table := repeat None 8.

Fixpoint probe (fuel : nat) (t : table) (key i perturb : Z) : option nat :=
  let slot := Z.to_nat (Z.land i 7) in
  match nth slot t None with
  | None => Some slot
  | Some k =>
      if (k =? key)%Z then Some slot
      else match fuel with
           | O => None
           | S fuel' =>
               probe fuel' t key (5 * i + perturb + 1)%Z (Z.shiftr perturb 5)
           end
  end.

Fixpoint store {A} (n : nat) (a : A) (l : list A) : list A :=
  match l, n with
  | [], _ => []
  | _ :: l', O => a :: l'
  | b :: l', S n' => b :: store n' a l'
  end.

Definition setitem (t : table) (key : Z) : table :=
  match nth (Z.to_nat (Z.land key 7)) t None with
  | None => store (Z.to_nat (Z.land key 7)) (Some key) t
  | Some k =>
      if (k =? key)%Z then t
      else match probe 32 t key (5 * Z.land key 7 + key + 1)%Z
                       (Z.shiftr key 5) with
           | Some slot => store slot (Some key) t
           | None => t
           end
  end.

Definition iter_order (ks : list Z) : list Z :=
  flat_map (fun s => match s with Some k => [k] | None => [] end)
           (fold_left setitem ks empty).

End Py27.

(** ** The hypothesis count in the words of the specification *)

Section Counting.

Variables K Label Data F : Type.

(** What one protected attribute contributes: (number of contexts) x
    (number of rows of the reference table of the first context's metric)
    when that metric is tabular, (number of contexts) otherwise. *)
Definition hypotheses_of (ctxts : list (Ctx Label Data F)) : nat :=
  match ctxts with
  | [] => 0
  | c0 :: _ =>
      match stats (metric c0) with
      | Table df => length ctxts * len df
      | Row _ => length ctxts
      end
  end.

(** Summed over the protected attributes of the investigation. *)
Definition num_hypotheses_spec (inv : Investigation K Label Data F) : nat :=
  list_sum (map hypotheses_of (values (contexts inv))).

End Counting.

(** ** What the compute pass does, call by call *)

Section Calls.

Variables Label Data F : Type.

(** The value of [c.metric.compute(c.data, level, exact=exact).stats]. *)
Definition computed (exact : bool) (level : F) (c : Ctx Label Data F)
  : Stats Label F :=
  compute (metric c) (data c) level exact.

(** The record of that call. *)
Definition compute_event (exact : bool) (level : F) (c : Ctx Label Data F)
  : Event Data F :=
  Compute (data c) level exact.

End Calls.

(** ** Concrete investigations *)

Module Example.

Local Open Scope Q_scope.
Local Open Scope string_scope.

Definition M_ : Type := Metric string nat Q.
Definition Inv : Type := Investigation Z string nat Q.

(** A scalar metric: one row [level, p-value] per context. *)
Definition scalar (p : Q) : M_ := {|
  stats := Row [0; p];
  compute := fun _ level _ => Row [level; p]
|}.

(** A regression metric with two coefficients. *)
Definition coefs (p1 p2 : Q) : DataFrame string Q := {|
  columns := ["coef"; "pval"];
  rows := [("a", [1; p1]); ("b", [2; p2])]
|}.

Definition tabular (p1 p2 : Q) : M_ := {|
  stats := Table (coefs 0 0);
  compute := fun _ _ _ => Table (coefs p1 p2)
|}.

(** One attribute, three contexts, scalar metric, raw p-values
    0.01, 0.02 and 0.03. *)
Definition three_contexts : Inv := {|
  contexts := [(1%Z, [ {| metric := scalar (1 # 100); data := 0%nat |};
                       {| metric := scalar (2 # 100); data := 1%nat |};
                       {| metric := scalar (3 # 100); data := 2%nat |} ])]
|}.

(** One attribute, two contexts, regression metric with a two-row
    reference table. *)
Definition two_tables : Inv := {|
  contexts := [(1%Z, [ {| metric := tabular (1 # 100) (2 # 100); data := 0%nat |};
                       {| metric := tabular (3 # 100) (4 # 100); data := 1%nat |} ])]
|}.

(** Two attributes, one scalar and one tabular. *)
Definition mixed : Inv := {|
  contexts := [(2%Z, [ {| metric := tabular (1 # 100) (2 # 100); data := 0%nat |} ]);
               (1%Z, [ {| metric := scalar (5 # 100); data := 1%nat |};
                       {| metric := scalar (0 # 1); data := 2%nat |} ])]
|}.

(** Two scalar attributes under the keys 1 and 8, in a mapping that
    iterates in sorted key order (an [OrderedDict] filled in that order,
    or a dictionary whose table once grew to 32 slots).  The dictionary
    that a comprehension builds from these keys is a fresh table of 8
    slots, in which 8 sits in slot 0 and 1 in slot 1. *)
Definition ordered : Inv := {|
  contexts := [(1%Z, [ {| metric := scalar (1 # 100); data := 1%nat |} ]);
               (8%Z, [ {| metric := scalar (4 # 100); data := 8%nat |} ])]
|}.

(** Two scalar attributes under the keys 8 and 0, in a dictionary filled
    in that order ([d = {}; d[8] = ...; d[0] = ...]).  Both keys hash to
    slot 0 of the table, so the dictionary iterates 8 before 0, while a
    dictionary filled in sorted order iterates 0 before 8. *)
Definition colliding : Inv := {|
  contexts :=
    dict_of_items Z.eq_dec Py27.iter_order
      [(8%Z, [ {| metric := scalar (4 # 100); data := 8%nat |} ]);
       (0%Z, [ {| metric := scalar (1 # 100); data := 0%nat |} ])]
|}.

(** An investigation without protected attributes. *)
Definition no_attributes : Inv := {| contexts := [] |}.

(** The orchestrator on exact arithmetic with the Holm correction above. *)
Definition run (iter_order : list Z -> list Z) (investigations : list Inv)
           (exact : bool) (level : Q) :=
  compute_all_stats Z.eq_dec Z.leb string_dec Qops iter_order holm
                    investigations exact level.

End Example.

(** ** Well-formed inputs *)

(** A dictionary built by a comprehension holds the keys it was given: its
    iteration order is a rearrangement of them. *)
Definition rearranges {K : Type} (iter_order : list K -> list K) : Prop :=
  forall ks : list K, NoDup ks -> Permutation (iter_order ks) ks.

Section Shapes.

Variables K Label Data F : Type.

(** The keys of a dictionary are pairwise distinct. *)
Definition distinct_keys (inv : Investigation K Label Data F) : Prop :=
  NoDup (keys (contexts inv)).

(** The first context's metric stands for the whole list: when it is
    tabular, every metric of the list is, with a reference table of as
    many rows. *)
Definition representative (ctxts : list (Ctx Label Data F)) : Prop :=
  match ctxts with
  | [] => True
  | c0 :: _ =>
      match stats (metric c0) with
      | Table ref =>
          Forall (fun c => exists ref_c,
                      stats (metric c) = Table ref_c /\ len ref_c = len ref)
                 ctxts
      | Row _ => True
      end
  end.

(** A tabular metric's [compute] returns a table with the row count of the
    metric's reference table. *)
Definition computes_reference_rows (c : Ctx Label Data F) : Prop :=
  forall ref level exact df,
    stats (metric c) = Table ref ->
    compute (metric c) (data c) level exact = Table df ->
    len df = len ref.




Definition well_shaped (inv : Investigation K Label Data F) : Prop :=
  forall sens ctxts,
    In (sens, ctxts) (contexts inv) ->
    representative ctxts /\ Forall computes_reference_rows ctxts.

End Shapes.

(** ** The scatter pass as the specification wants it *)

Section Scattered.

Variables Label F : Type.


End Scattered.

(** ** Reading the trace *)

Section Traces.

Variables K Label Data F : Type.
Variable K_leb : K -> K -> bool.

(** A call of [metric.compute] made with the given level and flag. *)
Definition computes_with (level : F) (exact : bool) (ev : Event Data F)
  : Prop :=
  match ev with
  | Compute _ l e => l = level /\ e = exact
  | _ => False
  end.

Definition is_compute (ev : Event Data F) : bool :=
  match ev with
  | Compute _ _ _ => true
  | _ => false
  end.

(** Every call of the compute pass when none of them is cut short:
    investigation by investigation, attribute by attribute in the order of
    [sorted], context by context. *)
Definition compute_calls (investigations : list (Investigation K Label Data F))
           (exact : bool) (level : F) : list (Event Data F) :=
  flat_map (fun inv =>
              flat_map (fun kv => map (compute_event exact level) (snd kv))
                       (sorted K_leb (contexts inv)))
           investigations.

End Traces.

(** ** The floor of the flatten pass *)

Section Floor.

Variable F : Type.
Variable ops : Arith F.

(** [v] is what the flatten pass hands on for the raw p-value [raw]:
    [1e-180] when [raw] is below it, as [zero] is, and [raw] itself when it
    is not; in no case a value below [1e-180]. *)
Definition floored (zero raw v : F) : Prop :=
  (raw = zero -> v = floor ops)
  /\ (ltb ops raw (floor ops) = true -> v = floor ops)
  /\ (ltb ops raw (floor ops) = false -> v = raw)
  /\ ltb ops v (floor ops) = false.

End Floor.

(** ** Inputs at the edges *)

Module Edge.

Local Open Scope Q_scope.

(** An attribute without contexts, after one that has some. *)
Definition hollow : Example.Inv := {|
  contexts := [(1%Z, [ {| metric := Example.scalar (1 # 100); data := 0%nat |} ]);
               (2%Z, [])]
|}.

(** [Example.mixed] with its two attributes the other way round. *)
Definition mixed_swapped : Example.Inv := {|
  contexts :=
    [(1%Z, [ {| metric := Example.scalar (5 # 100); data := 1%nat |};
             {| metric := Example.scalar (0 # 1); data := 2%nat |} ]);
     (2%Z, [ {| metric := Example.tabular (1 # 100) (2 # 100);
                data := 0%nat |} ])]
|}.

End Edge.

(** ** The order of keys *)

Section KeyOrder.

Variable K : Type.

(** The comparison of [sorted] is a total order on the keys. *)
Definition total_order (K_leb : K -> K -> bool) : Prop :=
  (forall a b, K_leb a b = true \/ K_leb b a = true)
  /\ (forall a b, K_leb a b = true -> K_leb b a = true -> a = b)
  /\ (forall a b c, K_leb a b = true -> K_leb b c = true -> K_leb a c = true).

(** Ascending by key. *)
Fixpoint ascending (K_leb : K -> K -> bool) {V} (l : list (K * V)) : Prop :=
  match l with
  | [] => True
  | kv :: l' =>
      Forall (fun kv' => K_leb (fst kv) (fst kv') = true) l'
      /\ ascending K_leb l'
  end.

End KeyOrder.

(** ** What the scatter pass may change *)

Section Repriced.

Variables Label F : Type.

(** The same stat row, but for its last field. *)
Definition repriced (s s' : Stats Label F) : Prop :=
  s' = s \/ exists p, s' = replace_pval s p.

(** The same entry of an attribute, but for the last fields of its rows. *)
Definition same_rows (r r' : StatsDict Label F) : Prop :=
  d_index r' = d_index r
  /\ d_cols r' = d_cols r
  /\ Forall2 repriced (d_stats r) (d_stats r').

End Repriced.

(** ** What the output holds for a scalar attribute *)

Section ScalarOutput.

Variables K Label Data F : Type.
Variable K_eq_dec : forall a b : K, {a = b} + {a <> b}.

(** One row per context, in the order of the contexts, with the fields
    computed for that context but for the last. *)
Definition rows_kept (exact : bool) (level : F)
           (ctxts : list (Ctx Label Data F)) (out : list (Stats Label F))
  : Prop :=
  Forall2 (fun c s' =>
             exists r p q,
               computed exact level c = Row (r ++ [p])
               /\ s' = Row (r ++ [q]))
          ctxts out.

Definition scalars_kept (exact : bool) (level : F)
           (inv : Investigation K Label Data F)
           (out : dict K (list (Stats Label F))) : Prop :=
  forall sens c0 rest r0,
    In (sens, c0 :: rest) (contexts inv) ->
    stats (metric c0) = Row r0 ->
    exists rows_out,
      dict_find K_eq_dec sens out = Some rows_out
      /\ rows_kept exact level (c0 :: rest) rows_out.

End ScalarOutput.

Module Edge2.

Local Open Scope Q_scope.
Local Open Scope string_scope.

(** A regression metric whose reference table has no row. *)
Definition no_coefs : DataFrame string Q := {|
  columns := ["coef"; "pval"];
  rows := []
|}.

Definition rowless : Example.M_ := {|
  stats := Table no_coefs;
  compute := fun _ _ _ => Table no_coefs
|}.

(** One attribute with that metric beside a scalar one. *)
Definition with_rowless : Example.Inv := {|
  contexts := [(1%Z, [ {| metric := Example.scalar (1 # 100); data := 0%nat |} ]);
               (2%Z, [ {| metric := rowless; data := 1%nat |} ])]
|}.

End Edge2.

(** ** Attributes that count for nothing *)

Section Rowless.

Variables Label Data F : Type.

(** A context list whose first metric is tabular with a reference table
    without rows. *)
Definition rowless_reference (ctxts : list (Ctx Label Data F)) : Prop :=
  exists c0 rest ref,
    ctxts = c0 :: rest /\ stats (metric c0) = Table ref /\ len ref = 0.

End Rowless.

(** ** Sample intermediate results *)

Module Sample.

Local Open Scope Q_scope.
Local Open Scope string_scope.

(** What the compute pass holds for an investigation with a scalar
    attribute of two contexts and a tabular one of one context. *)
Definition entries : dict Z (StatsDict string Q) :=
  [(1%Z, {| d_stats := [Row [95 # 100; 5 # 100]; Row [95 # 100; 1 # 100]];
            d_index := None; d_cols := None |});
   (2%Z, {| d_stats := [Row [1; 2 # 100]; Row [2; 3 # 100]];
            d_index := Some ["a"; "b"];
            d_cols := Some ["coef"; "pval"] |})].

Definition corrected : list Q := [10 # 100; 4 # 100; 6 # 100; 6 # 100].


(** The entry of a tabular attribute of three rows against a reference
    table of two. *)
Definition uneven : StatsDict string Q :=
  {| d_stats := [Row [1; 2 # 100]; Row [2; 3 # 100]; Row [3; 4 # 100]];
     d_index := Some ["a"; "b"; "c"];
     d_cols := Some ["coef"; "pval"] |}.

End Sample.

(** * Properties *)

Unset Implicit Arguments.

(** ** The effect monad *)

Lemma outcome_bind {E A B : Type} (m : M E A) (f : A -> M E B) :
  outcome (bind m f) = rbind (outcome m) (fun a => outcome (f a)).
Proof.
  destruct m as [t [a|e]]; simpl; [|reflexivity].
  destruct (f a); reflexivity.
Qed.

Lemma trace_bind {E A B : Type} (m : M E A) (f : A -> M E B) :
  trace (bind m f) =
  trace m ++ match outcome m with
             | Ok a => trace (f a)
             | Raise _ => []
             end.
Proof.
  destruct m as [t [a|e]]; simpl.
  - destruct (f a); reflexivity.
  - now rewrite app_nil_r.
Qed.

Lemma outcome_mapM {E A B : Type} (f : A -> M E B) (l : list A) :
  outcome (mapM f l) = rmap (fun a => outcome (f a)) l.
Proof.
  induction l as [|a l IH]; cbn [mapM rmap]; [reflexivity|].
  rewrite outcome_bind. destruct (outcome (f a)); cbn [rbind]; [|reflexivity].
  rewrite outcome_bind, IH. now destruct (rmap _ l).
Qed.

Lemma trace_mapM_ok {E A B : Type} (f : A -> M E B) (l : list A) (bs : list B) :
  outcome (mapM f l) = Ok bs ->
  trace (mapM f l) = flat_map (fun a => trace (f a)) l.
Proof.
  revert bs; induction l as [|a l IH]; intros bs H; cbn [mapM flat_map];
    [reflexivity|].
  cbn [mapM] in H. rewrite outcome_bind in H. rewrite trace_bind.
  destruct (outcome (f a)) as [b|e]; cbn [rbind] in H; [|discriminate].
  rewrite outcome_bind in H. rewrite trace_bind.
  destruct (outcome (mapM f l)) as [bs'|e] eqn:Hl; cbn [rbind] in H;
    [|discriminate].
  cbn. rewrite app_nil_r. f_equal. now apply IH with bs'.
Qed.

Lemma rmap_Forall2 {A B : Type} (f : A -> result B) (l : list A) (bs : list B) :
  rmap f l = Ok bs <-> Forall2 (fun a b => f a = Ok b) l bs.
Proof.
  revert bs; induction l as [|a l IH]; intros bs; simpl.
  - split; intros H; [injection H as <-; constructor | now inversion H].
  - destruct (f a) as [b|e] eqn:Ha; simpl.
    + destruct (rmap f l) as [bs'|e] eqn:Hl; simpl.
      * split; intros H.
        -- injection H as <-. constructor; [assumption | now apply IH].
        -- inversion H; subst. rewrite Ha in H2; injection H2 as <-.
           apply IH in H4. now injection H4 as <-.
      * split; intros H; [discriminate|].
        inversion H; subst. apply IH in H4. discriminate.
    + split; intros H; [discriminate|].
      inversion H; subst. rewrite Ha in H2. discriminate.
Qed.

Lemma rmap_total {A B : Type} (f : A -> B) (l : list A) :
  rmap (fun a => Ok (f a)) l = Ok (map f l).
Proof.
  induction l as [|a l IH]; simpl; [reflexivity|]. now rewrite IH.
Qed.

Lemma rmap_length {A B : Type} (f : A -> result B) (l : list A) (bs : list B) :
  rmap f l = Ok bs -> length bs = length l.
Proof.
  intros H. apply rmap_Forall2 in H. symmetry. eapply Forall2_length, H.
Qed.

(** ** [num_hypotheses] *)

Section NumHypotheses.

Variables K Label Data F : Type.

Lemma num_hypotheses_loop_sum (vals : list (list (Ctx Label Data F))) (tot : nat) :
  Forall (fun ctxts => ctxts <> []) vals ->
  num_hypotheses_loop vals tot = Ok (tot + list_sum (map (@hypotheses_of _ _ _) vals)).
Proof.
  intros H; revert tot; induction H as [|ctxts vals Hne _ IH]; intros tot.
  - simpl. now rewrite Nat.add_0_r.
  - destruct ctxts as [|c0 rest]; [congruence|].
    cbn [num_hypotheses_loop map hypotheses_of].
    destruct (stats (metric c0)); rewrite IH; f_equal;
      unfold list_sum; cbn [fold_right]; lia.
Qed.

Lemma num_hypotheses_loop_ok (vals : list (list (Ctx Label Data F))) (tot n : nat) :
  num_hypotheses_loop vals tot = Ok n ->
  Forall (fun ctxts => ctxts <> []) vals.
Proof.
  revert tot; induction vals as [|ctxts vals IH]; intros tot H; [constructor|].
  destruct ctxts as [|c0 rest]; [discriminate|].
  constructor; [discriminate|].
  cbn [num_hypotheses_loop] in H.
  destruct (stats (metric c0)); eapply IH, H.
Qed.

(** Whenever [num_hypotheses] returns, it returns the count of the
    specification and no context list is empty. *)
Lemma num_hypotheses_inv (inv : Investigation K Label Data F) (n : nat) :
  num_hypotheses inv = Ok n ->
  n = num_hypotheses_spec inv
  /\ Forall (fun ctxts => ctxts <> []) (values (contexts inv)).
Proof.
  intros H. pose proof (num_hypotheses_loop_ok _ _ _ H) as Hne.
  split; [|assumption].
  unfold num_hypotheses in H. rewrite (num_hypotheses_loop_sum _ 0 Hne) in H.
  now injection H as <-.
Qed.

(** C3. For an investigation in which every protected attribute has a
    non-empty context list, [num_hypotheses] returns the sum, over the
    attributes, of (number of contexts) x (number of rows of the reference
    table of the first context's metric) when that metric is tabular and of
    (number of contexts) otherwise.  The function is a pure function into
    [result nat]: it makes no call and updates nothing. *)
Theorem num_hypotheses_counts (inv : Investigation K Label Data F) :
  (forall sens ctxts, In (sens, ctxts) (contexts inv) -> ctxts <> []) ->
  num_hypotheses inv = Ok (num_hypotheses_spec inv).
Proof.
  intros H. unfold num_hypotheses, num_hypotheses_spec.
  rewrite num_hypotheses_loop_sum; [reflexivity|].
  apply Forall_forall. intros ctxts Hin.
  apply in_map_iff in Hin. destruct Hin as [[sens c] [<- Hin]].
  eapply H, Hin.
Qed.

End NumHypotheses.

Lemma num_hypotheses_counts_witness :
  (forall sens ctxts,
      In (sens, ctxts) (contexts Example.two_tables) -> ctxts <> [])
  /\ num_hypotheses Example.two_tables = Ok 4.
Proof.
  assert (H : forall sens ctxts,
             In (sens, ctxts) (contexts Example.two_tables) -> ctxts <> []).
  { intros sens ctxts [Heq|[]]. injection Heq as _ <-. discriminate. }
  split; [exact H|].
  exact (num_hypotheses_counts _ _ _ _ Example.two_tables H).
Defined.

(** ** [compute_stats] *)

Section ComputeStats.

Variables Label Data F : Type.
Variable Label_eq_dec : forall a b : Label, {a = b} + {a <> b}.

Lemma mapM_call_compute (exact : bool) (level : F) (ctxts : list (Ctx Label Data F)) :
  mapM (call_compute exact level) ctxts =
  (map (compute_event exact level) ctxts, Ok (map (computed exact level) ctxts)).
Proof.
  induction ctxts as [|c ctxts IH]; [reflexivity|].
  cbn [mapM map]. rewrite IH.
  unfold call_compute, bind, tell, ret; cbn [app].
  now rewrite app_nil_r.
Qed.

Lemma compute_stats_trace (c0 : Ctx Label Data F) (rest : list (Ctx Label Data F)) exact level :
  trace (compute_stats Label_eq_dec (c0 :: rest) exact level) =
  map (compute_event exact level) (c0 :: rest).
Proof.
  unfold compute_stats. rewrite mapM_call_compute.
  cbn [lift bind app]. destruct (stats (metric c0)).
  - cbn. now rewrite ?app_nil_r.
  - destruct (pd_concat _ _); cbn; now rewrite ?app_nil_r.
Qed.

Lemma rmap_as_frame (dfs : list (DataFrame Label F)) :
  rmap (@as_frame Label F) (map Table dfs) = Ok dfs.
Proof.
  induction dfs as [|df dfs IH]; [reflexivity|].
  cbn [map rmap as_frame rbind]. now rewrite IH.
Qed.

Lemma pd_concat_shared (dfs : list (DataFrame Label F)) (cols : list Label) :
  dfs <> [] ->
  Forall (fun df => columns df = cols) dfs ->
  pd_concat Label_eq_dec (map Table dfs) =
  Ok {| columns := cols; rows := concat (map (@rows _ _) dfs) |}.
Proof.
  intros Hne Hcols. unfold pd_concat. rewrite rmap_as_frame. cbn [rbind].
  destruct dfs as [|df0 dfs']; [congruence|].
  assert (Hall : forallb (same_columns Label_eq_dec df0) (df0 :: dfs') = true).
  { apply forallb_forall. intros df Hin. unfold same_columns.
    rewrite Forall_forall in Hcols.
    rewrite (Hcols df Hin), (Hcols df0 (or_introl eq_refl)).
    now destruct (list_eq_dec Label_eq_dec cols cols). }
  rewrite Hall. f_equal. f_equal. inversion Hcols; subst. reflexivity.
Qed.

(** C7. On a non-empty context list [compute_stats] calls each context's
    [metric.compute] exactly once, in the order of the list, with that
    context's data, the given level and the given exact flag.  When the
    first context's metric is tabular (and the computed tables share their
    column labels) it returns the tables' rows in the order of the
    contexts, the row labels in the same order, and the column labels;
    otherwise it returns the per-context results as they are, in the order
    of the contexts. *)
Theorem compute_stats_in_order (c0 : Ctx Label Data F) (rest : list (Ctx Label Data F))
        (exact : bool) (level : F) :
  let ctxts := c0 :: rest in
  let run := compute_stats Label_eq_dec ctxts exact level in
  trace run = map (fun c => Compute (data c) level exact) ctxts
  /\ (forall r, stats (metric c0) = Row r ->
        outcome run =
        Ok {| d_stats := map (fun c => compute (metric c) (data c) level exact)
                             ctxts;
              d_index := None; d_cols := None |})
  /\ (forall ref dfs cols,
        stats (metric c0) = Table ref ->
        map (fun c => compute (metric c) (data c) level exact) ctxts =
        map Table dfs ->
        Forall (fun df => columns df = cols) dfs ->
        outcome run =
        Ok {| d_stats := map Row (concat (map (fun df => map snd (rows df)) dfs));
              d_index := Some (concat (map (fun df => map fst (rows df)) dfs));
              d_cols := Some cols |}).
Proof.
  intros ctxts run. split; [apply compute_stats_trace|].
  subst run ctxts. unfold compute_stats. rewrite mapM_call_compute.
  cbn [lift bind app]. split.
  - intros r Hr. rewrite Hr. reflexivity.
  - intros ref dfs cols Href Hres Hcols. rewrite Href.
    change (map (computed exact level) (c0 :: rest))
      with (map (fun c => compute (metric c) (data c) level exact) (c0 :: rest)).
    rewrite Hres.
    assert (Hne : dfs <> []) by (intros ->; discriminate).
    rewrite (pd_concat_shared dfs cols Hne Hcols). cbn.
    now rewrite !concat_map, !map_map.
Qed.

End ComputeStats.

Lemma compute_stats_in_order_witness :
  let c0 := {| metric := Example.tabular (1 # 100) (2 # 100); data := 0 |} in
  let c1 := {| metric := Example.tabular (3 # 100) (4 # 100); data := 1 |} in
  let run := compute_stats string_dec [c0; c1] true (95 # 100) in
  trace run = [Compute 0 (95 # 100) true; Compute 1 (95 # 100) true]
  /\ outcome (compute_stats string_dec
                [ {| metric := Example.scalar (1 # 100); data := 0 |};
                  {| metric := Example.scalar (2 # 100); data := 1 |} ]
                false (95 # 100)) =
     Ok {| d_stats := [Row [95 # 100; 1 # 100]; Row [95 # 100; 2 # 100]];
           d_index := None; d_cols := None |}
  /\ outcome run =
     Ok {| d_stats := [Row [1; 1 # 100]; Row [2; 2 # 100];
                       Row [1; 3 # 100]; Row [2; 4 # 100]]%Q;
           d_index := Some ["a"; "b"; "a"; "b"]%string;
           d_cols := Some ["coef"; "pval"]%string |}.
Proof.
  intros c0 c1 run.
  destruct (compute_stats_in_order _ _ _ string_dec c0 [c1] true (95 # 100))
    as (Ht & _ & Htab).
  destruct (compute_stats_in_order _ _ _ string_dec
              {| metric := Example.scalar (1 # 100); data := 0 |}
              [ {| metric := Example.scalar (2 # 100); data := 1 |} ]
              false (95 # 100)) as (_ & Hrow & _).
  split; [exact Ht|]. split.
  - exact (Hrow _ eq_refl).
  - apply (Htab (Example.coefs 0 0)
                [Example.coefs (1 # 100) (2 # 100);
                 Example.coefs (3 # 100) (4 # 100)]
                ["coef"; "pval"]%string);
      [reflexivity | reflexivity | repeat constructor].
Defined.

(** ** More on traces *)

Lemma Forall2_pick_l {A B : Type} (R : A -> B -> Prop) (l : list A)
      (l' : list B) (a : A) :
  Forall2 R l l' -> In a l -> exists b, In b l' /\ R a b.
Proof.
  induction 1 as [|x y l l' Hxy _ IH]; intros Hin; [contradiction|].
  destruct Hin as [<-|Hin].
  - exists y. split; [now left | assumption].
  - destruct (IH Hin) as (b & Hb & HR). exists b. split; [now right | assumption].
Qed.

Lemma trace_mapM_ext {E A B : Type} (f : A -> M E B) (g : A -> list E)
      (l : list A) (bs : list B) :
  outcome (mapM f l) = Ok bs ->
  (forall a, In a l -> trace (f a) = g a) ->
  trace (mapM f l) = flat_map g l.
Proof.
  intros Hok Hg. rewrite (trace_mapM_ok _ _ _ Hok).
  clear Hok. induction l as [|a l IH]; [reflexivity|].
  cbn [flat_map]. rewrite Hg by now left.
  f_equal. apply IH. intros a' Hin. apply Hg. now right.
Qed.

Lemma trace_mapM_Forall {E A B : Type} (P : E -> Prop) (f : A -> M E B)
      (l : list A) :
  (forall a, In a l -> Forall P (trace (f a))) ->
  Forall P (trace (mapM f l)).
Proof.
  induction l as [|a l IH]; intros H; [constructor|].
  cbn [mapM]. rewrite trace_bind. apply Forall_app. split.
  - apply H. now left.
  - destruct (outcome (f a)); [|constructor].
    rewrite trace_bind. apply Forall_app. split.
    + apply IH. intros a' Hin. apply H. now right.
    + destruct (outcome (mapM f l)); constructor.
Qed.

(** ** The orchestrator, pass by pass *)

Section Orchestrator.

Variables K Label Data F : Type.
Variable K_eq_dec : forall a b : K, {a = b} + {a <> b}.
Variable K_leb : K -> K -> bool.
Variable Label_eq_dec : forall a b : Label, {a = b} + {a <> b}.
Variable ops : Arith F.
Variable iter_order : list K -> list K.
Variable multipletests : F -> list F -> result (list F).

Let compute_pass (exact : bool) (adj : F)
    (investigations : list (Investigation K Label Data F)) :=
  mapM (compute_inv K_eq_dec K_leb Label_eq_dec iter_order exact adj)
       investigations.

Let run (investigations : list (Investigation K Label Data F))
    (exact : bool) (level : F) :=
  compute_all_stats K_eq_dec K_leb Label_eq_dec ops iter_order multipletests
                    investigations exact level.

Lemma compute_stats_trace_all (ctxts : list (Ctx Label Data F)) exact level :
  trace (compute_stats Label_eq_dec ctxts exact level) =
  map (compute_event exact level) ctxts.
Proof.
  destruct ctxts as [|c0 rest]; [reflexivity|].
  apply compute_stats_trace.
Qed.

Lemma compute_inv_trace exact adj (inv : Investigation K Label Data F) :
  forall items,
    outcome (compute_inv K_eq_dec K_leb Label_eq_dec iter_order exact adj inv)
    = Ok items ->
    trace (compute_inv K_eq_dec K_leb Label_eq_dec iter_order exact adj inv) =
    flat_map (fun kv => map (compute_event exact adj) (snd kv))
             (sorted K_leb (contexts inv)).
Proof.
  intros items H. unfold compute_inv in *.
  rewrite outcome_bind in H. rewrite trace_bind.
  destruct (outcome (mapM _ (sorted K_leb (contexts inv)))) as [its|e] eqn:Hm;
    [|discriminate].
  cbn [trace ret fst]. rewrite app_nil_r.
  apply (trace_mapM_ext _ _ _ _ Hm). intros kv _.
  rewrite trace_bind, compute_stats_trace_all.
  destruct (outcome (compute_stats _ _ _ _)); cbn; now rewrite app_nil_r.
Qed.

Lemma compute_inv_trace_Forall exact adj (inv : Investigation K Label Data F) :
  Forall (computes_with adj exact)
         (trace (compute_inv K_eq_dec K_leb Label_eq_dec iter_order
                             exact adj inv)).
Proof.
  unfold compute_inv. rewrite trace_bind. apply Forall_app. split.
  - apply trace_mapM_Forall. intros kv _.
    rewrite trace_bind, compute_stats_trace_all. apply Forall_app. split.
    + apply Forall_forall. intros ev Hin. apply in_map_iff in Hin.
      destruct Hin as [c [<- _]]. now split.
    + destruct (outcome (compute_stats _ _ _ _)); constructor.
  - destruct (outcome (mapM _ _)); constructor.
Qed.

(** The run of [compute_all_stats] once the count and the adjusted level
    are known: the log line, the compute pass, the call of the correction
    when the flatten pass got that far, and the result of the pure passes
    that follow. *)
Lemma compute_all_stats_run investigations exact level total adj :
  total_hypotheses investigations = Ok total ->
  adj_level ops level total = Ok adj ->
  trace (run investigations exact level) =
    LogInfo total
    :: trace (compute_pass exact adj investigations)
    ++ match outcome (compute_pass exact adj investigations) with
       | Ok all_stats =>
           match all_pvals ops all_stats with
           | Ok pvals => [Multipletests pvals (sub ops (one ops) level)]
           | Raise _ => []
           end
       | Raise _ => []
       end
  /\ outcome (run investigations exact level) =
     (all_stats <-- outcome (compute_pass exact adj investigations) ;;
      pvals <-- all_pvals ops all_stats ;;
      pvals_corr <-- multipletests (sub ops (one ops) level) pvals ;;
      scattered <-- scatter K_eq_dec investigations all_stats pvals_corr 0 ;;
      reformed <-- reassemble K_eq_dec investigations scattered ;;
      Ok (map (strip K_eq_dec iter_order) reformed)).
Proof.
  intros Ht Ha. subst run compute_pass. cbv beta. unfold compute_all_stats.
  rewrite Ht. cbn [lift bind tell app]. rewrite Ha. cbn [lift bind tell app].
  destruct (mapM _ investigations) as [t [all_stats|e]]; cbn;
    [|now rewrite app_nil_r].
  destruct (all_pvals ops all_stats) as [pvals|e]; cbn;
    [|now rewrite app_nil_r].
  destruct (multipletests _ pvals) as [pvals_corr|e]; cbn; [|easy].
  destruct (scatter _ _ _ _ _) as [scattered|e]; cbn; [|easy].
  destruct (reassemble _ _ _) as [reformed|e]; cbn; easy.
Qed.

Lemma total_hypotheses_sum (investigations : list (Investigation K Label Data F))
      (ns : list nat) :
  Forall2 (fun inv n => num_hypotheses inv = Ok n) investigations ns ->
  total_hypotheses investigations = Ok (list_sum ns).
Proof.
  intros H. unfold total_hypotheses.
  apply rmap_Forall2 in H. now rewrite H.
Qed.

(** C8. When the hypotheses of all investigations add up to zero,
    [compute_all_stats] raises [ZeroDivisionError] right after the log
    line, before any metric is computed, and returns nothing; the empty
    batch is such an input. *)
Theorem zero_hypotheses_raises investigations ns exact level :
  Forall2 (fun inv n => num_hypotheses inv = Ok n) investigations ns ->
  list_sum ns = 0 ->
  run investigations exact level = ([LogInfo 0], Raise ZeroDivisionError)
  /\ run [] exact level = ([LogInfo 0], Raise ZeroDivisionError).
Proof.
  intros Hn Hz. apply total_hypotheses_sum in Hn. rewrite Hz in Hn.
  split; [|reflexivity].
  subst run; cbv beta. unfold compute_all_stats. rewrite Hn. reflexivity.
Qed.

(** C2. [compute_all_stats] logs the total [T], the sum of
    [num_hypotheses(inv)] over the investigations, and every call of
    [metric.compute] it makes carries the level [1 - (1 - level) / T] and
    the caller's exact flag; when the call returns, these calls are those
    of [compute_stats] on every attribute of every investigation. *)
Theorem adjusted_level_forwarded investigations ns exact level :
  Forall2 (fun inv n => num_hypotheses inv = Ok n) investigations ns ->
  list_sum ns <> 0 ->
  let total := list_sum ns in
  let adj := sub ops (one ops)
                 (div ops (sub ops (one ops) level) (of_nat ops total)) in
  adj_level ops level total = Ok adj
  /\ (exists calls rest,
        trace (run investigations exact level) = LogInfo total :: calls ++ rest
        /\ Forall (computes_with adj exact) calls
        /\ Forall (fun ev => is_compute ev = false) rest)
  /\ (forall out,
        outcome (run investigations exact level) = Ok out ->
        exists pvals,
          trace (run investigations exact level) =
          LogInfo total
          :: compute_calls K_leb investigations exact adj
          ++ [Multipletests pvals (sub ops (one ops) level)]).
Proof.
  intros Hn Hnz total adj.
  assert (Ha : adj_level ops level total = Ok adj).
  { subst adj total. unfold adj_level.
    destruct (list_sum ns); [congruence|reflexivity]. }
  apply total_hypotheses_sum in Hn. fold total in Hn.
  destruct (compute_all_stats_run investigations exact level total adj Hn Ha)
    as [Htr Hout].
  split; [exact Ha|]. split.
  - eexists _, _. split; [exact Htr|]. split.
    + apply trace_mapM_Forall. intros inv _. apply compute_inv_trace_Forall.
    + destruct (outcome (compute_pass exact adj investigations));
        [|constructor].
      destruct (all_pvals ops a); repeat constructor.
  - intros out Hok. rewrite Hout in Hok. rewrite Htr.
    destruct (outcome (compute_pass exact adj investigations))
      as [all_stats|e] eqn:Hcp; [|discriminate].
    cbn [rbind] in Hok.
    destruct (all_pvals ops all_stats) as [pvals|e]; [|discriminate].
    exists pvals. f_equal. f_equal.
    subst compute_pass. cbv beta in *.
    apply (trace_mapM_ext _ _ _ _ Hcp). intros inv Hin.
    pose proof Hcp as Hcp'. rewrite outcome_mapM in Hcp'.
    apply rmap_Forall2 in Hcp'.
    destruct (Forall2_pick_l _ _ _ _ Hcp' Hin) as (items & _ & Hitems).
    eapply compute_inv_trace, Hitems.
Qed.

(** The correction is called at most once, after the compute and flatten
    passes have gone through, on the flattened collection. *)
Lemma multipletests_event investigations exact level pvals alpha :
  In (Multipletests pvals alpha) (trace (run investigations exact level)) ->
  exists total adj all_stats,
    total_hypotheses investigations = Ok total
    /\ adj_level ops level total = Ok adj
    /\ outcome (compute_pass exact adj investigations) = Ok all_stats
    /\ all_pvals ops all_stats = Ok pvals
    /\ alpha = sub ops (one ops) level.
Proof.
  intros Hin.
  destruct (total_hypotheses investigations) as [total|e] eqn:Ht.
  2:{ subst run; cbv beta in Hin. unfold compute_all_stats in Hin.
      rewrite Ht in Hin. contradiction. }
  destruct (adj_level ops level total) as [adj|e] eqn:Ha.
  2:{ subst run; cbv beta in Hin. unfold compute_all_stats in Hin.
      rewrite Ht in Hin. cbn [lift bind tell app] in Hin.
      rewrite Ha in Hin. destruct Hin as [Hin|[]]. discriminate. }
  destruct (compute_all_stats_run investigations exact level total adj Ht Ha)
    as [Htr _].
  rewrite Htr in Hin. destruct Hin as [Hin|Hin]; [discriminate|].
  apply in_app_or in Hin. destruct Hin as [Hin|Hin].
  - exfalso.
    assert (Hall : Forall (computes_with adj exact)
                          (trace (compute_pass exact adj investigations))).
    { apply trace_mapM_Forall. intros inv _. apply compute_inv_trace_Forall. }
    rewrite Forall_forall in Hall. exact (Hall _ Hin).
  - destruct (outcome (compute_pass exact adj investigations))
      as [all_stats|e] eqn:Hcp; [|contradiction].
    destruct (all_pvals ops all_stats) as [pv|e] eqn:Hp; [|contradiction].
    destruct Hin as [Hin|[]]. injection Hin as -> <-.
    exists total, adj, all_stats. repeat split; assumption.
Qed.

Lemma all_pvals_clamped (all_stats : list (dict K (StatsDict Label F))) :
  all_pvals ops all_stats =
  (ps <-- rmap (@last_field Label F) (flat_stats all_stats) ;;
   Ok (map (fun p => pymax ops p (floor ops)) ps)).
Proof.
  unfold all_pvals. induction (flat_stats all_stats) as [|stat l IH];
    [reflexivity|].
  cbn [rmap]. destruct (last_field stat) as [p|e]; cbn [rbind].
  - rewrite IH. destruct (rmap (@last_field Label F) l); reflexivity.
  - reflexivity.
Qed.

Lemma pymax_not_below (p : F) :
  (forall x, ltb ops x x = false) ->
  ltb ops (pymax ops p (floor ops)) (floor ops) = false.
Proof.
  intros Hirr. unfold pymax.
  destruct (ltb ops p (floor ops)) eqn:Hlt; [apply Hirr | exact Hlt].
Qed.

Lemma all_pvals_not_below (all_stats : list (dict K (StatsDict Label F)))
      (pvals : list F) :
  (forall x, ltb ops x x = false) ->
  all_pvals ops all_stats = Ok pvals ->
  Forall (fun v => ltb ops v (floor ops) = false) pvals.
Proof.
  intros Hirr H. rewrite all_pvals_clamped in H.
  destruct (rmap (@last_field Label F) (flat_stats all_stats)) as [ps|e];
    [|discriminate].
  injection H as <-. apply Forall_forall. intros v Hin.
  apply in_map_iff in Hin. destruct Hin as [p [<- _]].
  now apply pymax_not_below.
Qed.

Lemma pymax_floored (zero : F) (raws : list F) :
  (forall x, ltb ops x x = false) ->
  ltb ops zero (floor ops) = true ->
  Forall2 (floored ops zero) raws
          (map (fun p => pymax ops p (floor ops)) raws).
Proof.
  intros Hirr Hzero. induction raws as [|raw raws IH]; constructor;
    [|exact IH].
  unfold floored, pymax. destruct (ltb ops raw (floor ops)) eqn:Hlt.
  - repeat split; try reflexivity; try discriminate. apply Hirr.
  - repeat split; try reflexivity; try discriminate; [|exact Hlt].
    intros ->. congruence.
Qed.

(** C9. Whenever the compute pass has gone through and every stat row has
    a last field to read, the flatten pass does not raise and the
    correction is called, once, with one value per row, in the order of the
    rows: [1e-180] for a raw p-value below it, 0.0 for one, and the raw
    p-value itself otherwise.  The correction is never called with anything
    else: whatever list it receives is made of the last fields of the rows
    in that way, and holds no value below [1e-180]. *)
Theorem pvalues_floored investigations exact level (zero : F) :
  (forall x, ltb ops x x = false) ->
  ltb ops zero (floor ops) = true ->
  (forall total adj all_stats raws,
      total_hypotheses investigations = Ok total ->
      adj_level ops level total = Ok adj ->
      outcome (compute_pass exact adj investigations) = Ok all_stats ->
      rmap (@last_field Label F) (flat_stats all_stats) = Ok raws ->
      exists fed,
        Forall2 (floored ops zero) raws fed
        /\ trace (run investigations exact level) =
           LogInfo total
           :: trace (compute_pass exact adj investigations)
           ++ [Multipletests fed (sub ops (one ops) level)])
  /\ (forall pvals alpha,
        In (Multipletests pvals alpha)
           (trace (run investigations exact level)) ->
        exists total adj all_stats raws,
          total_hypotheses investigations = Ok total
          /\ adj_level ops level total = Ok adj
          /\ outcome (compute_pass exact adj investigations) = Ok all_stats
          /\ rmap (@last_field Label F) (flat_stats all_stats) = Ok raws
          /\ Forall2 (floored ops zero) raws pvals).
Proof.
  intros Hirr Hzero. split.
  - intros total adj all_stats raws Ht Ha Hcp Hraws.
    exists (map (fun p => pymax ops p (floor ops)) raws).
    split; [now apply pymax_floored|].
    destruct (compute_all_stats_run investigations exact level total adj
                Ht Ha) as [Htr _].
    rewrite Htr, Hcp, all_pvals_clamped, Hraws. reflexivity.
  - intros pvals alpha Hin. apply multipletests_event in Hin.
    destruct Hin as (total & adj & all_stats & Ht & Ha & Hcp & Hp & _).
    rewrite all_pvals_clamped in Hp.
    destruct (rmap (@last_field Label F) (flat_stats all_stats))
      as [raws|e] eqn:Hraws; [|discriminate].
    injection Hp as <-.
    exists total, adj, all_stats, raws.
    repeat (split; [assumption|]). now apply pymax_floored.
Qed.

End Orchestrator.

Lemma zero_hypotheses_raises_witness :
  Forall2 (fun inv n => num_hypotheses inv = Ok n)
          [Example.no_attributes; Example.no_attributes] [0; 0]
  /\ list_sum [0; 0] = 0
  /\ Example.run insertion_order
                 [Example.no_attributes; Example.no_attributes] true (95 # 100)
     = ([LogInfo 0], Raise ZeroDivisionError).
Proof.
  assert (Hn : Forall2 (fun inv n => num_hypotheses inv = Ok n)
                       [Example.no_attributes; Example.no_attributes] [0; 0])
    by (repeat constructor).
  split; [exact Hn|]. split; [reflexivity|].
  exact (proj1 (zero_hypotheses_raises _ _ _ _ Z.eq_dec Z.leb string_dec Qops
                  insertion_order holm _ _ true (95 # 100) Hn eq_refl)).
Defined.

Lemma adjusted_level_forwarded_witness :
  let adj := (1 - (1 - (95 # 100)) / inject_Z 3)%Q in
  Forall2 (fun inv n => num_hypotheses inv = Ok n)
          [Example.three_contexts] [3]
  /\ list_sum [3] <> 0
  /\ exists pvals,
       trace (Example.run insertion_order [Example.three_contexts]
                          true (95 # 100)) =
       [LogInfo 3; Compute 0 adj true; Compute 1 adj true; Compute 2 adj true;
        Multipletests pvals (1 - (95 # 100))%Q].
Proof.
  intros adj.
  assert (Hn : Forall2 (fun inv n => num_hypotheses inv = Ok n)
                       [Example.three_contexts] [3])
    by (repeat constructor).
  assert (Hnz : list_sum [3] <> 0) by discriminate.
  split; [exact Hn|]. split; [exact Hnz|].
  destruct (adjusted_level_forwarded _ _ _ _ Z.eq_dec Z.leb string_dec Qops
              insertion_order holm _ _ true (95 # 100) Hn Hnz)
    as (_ & _ & Hret).
  destruct (Hret _ eq_refl) as [pvals Htr].
  exists pvals. exact Htr.
Defined.

(** 0.0 is below the floor and nothing is below itself, in exact
    arithmetic and in binary64. *)
Lemma zero_below_floor :
  ltb Qops 0%Q (floor Qops) = true /\ ltb Fops 0%float (floor Fops) = true.
Proof. split; vm_compute; reflexivity. Qed.

Lemma Fops_ltb_irrefl (x : float) : ltb Fops x x = false.
Proof.
  change (PrimFloat.ltb x x = false). rewrite FloatAxioms.ltb_spec.
  unfold SpecFloat.SFltb.
  destruct (Prim2SF x) as [s| s| |s m e]; cbn;
    try destruct s; try reflexivity;
    rewrite ?Z.compare_refl, ?Pos.compare_refl, ?Pos.compare_cont_refl;
    reflexivity.
Qed.

Lemma pvalues_floored_witness :
  (forall x : Q, ltb Qops x x = false)
  /\ ltb Qops 0%Q (floor Qops) = true
  /\ exists fed,
       Forall2 (floored Qops 0%Q) [5 # 100; 0; 1 # 100; 2 # 100]%Q fed
       /\ In (Multipletests fed (1 - (95 # 100))%Q)
             (trace (Example.run insertion_order [Example.mixed] true
                                 (95 # 100))).
Proof.
  assert (Hirr : forall x : Q, ltb Qops x x = false).
  { intros x. cbn. apply negb_false_iff, Qle_bool_iff, Qle_refl. }
  assert (Hzero : ltb Qops 0%Q (floor Qops) = true)
    by (vm_compute; reflexivity).
  split; [exact Hirr|]. split; [exact Hzero|].
  assert (Hrun : exists adj all_stats,
             adj_level Qops (95 # 100) 4 = Ok adj
             /\ outcome (mapM (compute_inv Z.eq_dec Z.leb string_dec
                                           insertion_order true adj)
                              [Example.mixed]) = Ok all_stats
             /\ rmap (@last_field string Q) (flat_stats all_stats)
                = Ok [5 # 100; 0; 1 # 100; 2 # 100]%Q).
  { eexists _, _. split; [vm_compute; reflexivity|].
    split; vm_compute; reflexivity. }
  destruct Hrun as (adj & all_stats & Ha & Hcp & Hraws).
  destruct (proj1 (pvalues_floored _ _ _ _ Z.eq_dec Z.leb string_dec Qops
                     insertion_order holm [Example.mixed] true (95 # 100)
                     0%Q Hirr Hzero)
                  4 adj all_stats _ eq_refl Ha Hcp Hraws)
    as (fed & Hfed & Htr).
  exists fed. split; [exact Hfed|].
  unfold Example.run. rewrite Htr. right. apply in_or_app. right. now left.
Defined.

(** ** The adjusted level *)

(** C10, in exact arithmetic.  For a level strictly between 0 and 1 and a
    total of at least one hypothesis, the level [1 - (1 - level) / T] lies
    between the caller's level and 1, 1 excluded, and equals the caller's
    level exactly when [T = 1]. *)
Theorem bonferroni_level_bounds (level : Q) (total : nat) (adj : Q) :
  (0 < level)%Q -> (level < 1)%Q -> 1 <= total ->
  adj_level Qops level total = Ok adj ->
  (level <= adj)%Q /\ (adj < 1)%Q /\ ((adj == level)%Q <-> total = 1).
Proof.
  intros H0 H1 Ht Ha. unfold adj_level in Ha.
  destruct total as [|n]; [lia|]. injection Ha as <-.
  cbn [Qops sub div one of_nat].
  change (Z.pos (Pos.of_succ_nat n)) with (Z.of_nat (S n)).
  set (t := inject_Z (Z.of_nat (S n))).
  assert (Ht1 : (1 <= t)%Q).
  { subst t. change 1%Q with (inject_Z 1). rewrite <- Zle_Qle. lia. }
  assert (Hx : (t * ((1 - level) / t) == 1 - level)%Q).
  { apply Qmult_div_r. lra. }
  set (x := ((1 - level) / t)%Q) in *.
  assert (Hx0 : (0 < x)%Q) by nra.
  split; [nra|]. split; [lra|]. split; intros H.
  - assert (Hz : ((t - 1) * x == 0)%Q).
    { setoid_replace ((t - 1) * x)%Q with (t * x - x)%Q by ring. lra. }
    assert (Ht' : (t == 1)%Q).
    { apply Qmult_integral in Hz. destruct Hz; lra. }
    subst t. change 1%Q with (inject_Z 1) in Ht'.
    apply (proj1 (inject_Z_injective _ _)) in Ht'. lia.
  - injection H as ->. subst x t.
    change (inject_Z (Z.of_nat 1)) with 1%Q. field.
Qed.

Lemma bonferroni_level_bounds_witness :
  (0 < 95 # 100)%Q /\ (95 # 100 < 1)%Q /\ 1 <= 3
  /\ (95 # 100 <= 1 - (1 - (95 # 100)) / inject_Z 3)%Q
  /\ (1 - (1 - (95 # 100)) / inject_Z 3 < 1)%Q.
Proof.
  assert (H0 : (0 < 95 # 100)%Q) by reflexivity.
  assert (H1 : (95 # 100 < 1)%Q) by reflexivity.
  assert (Ht : 1 <= 3) by lia.
  destruct (bonferroni_level_bounds (95 # 100) 3 _ H0 H1 Ht eq_refl)
    as (Hle & Hlt & _).
  repeat split; assumption.
Defined.

(** In binary64, as the interpreter computes it, the rounding of
    [1 - level] can leave the adjusted level below the caller's: for
    [level = 0.1] (the double [0x1.999999999999ap-4]) and one hypothesis,
    [1 - (1 - 0.1) / 1] is [0.09999999999999998].  And the adjusted level
    can round to 1: for the largest double below 1 and two hypotheses,
    [1 - (1 - level) / 2] is [1.0]. *)
Lemma bonferroni_level_below_in_binary64 :
  let level := 0x1.999999999999ap-4%float in
  let near_one := 0x1.fffffffffffffp-1%float in
  (ltb Fops 0%float level = true
   /\ ltb Fops level 1%float = true
   /\ adj_level Fops level 1 = Ok 0x1.9999999999998p-4%float
   /\ ltb Fops 0x1.9999999999998p-4%float level = true)
  /\ (ltb Fops 0%float near_one = true
      /\ ltb Fops near_one 1%float = true
      /\ adj_level Fops near_one 2 = Ok 1%float
      /\ ltb Fops 1%float 1%float = false).
Proof.
  cbv zeta. repeat split; vm_compute; reflexivity.
Qed.

(** ** The Holm correction *)

Section Holm.

Let dominated (x y : Q * nat) : Prop := snd x = snd y /\ (fst x <= fst y)%Q.

Lemma insert_by_pval_perm (x : Q * nat) (l : list (Q * nat)) :
  Permutation (insert_by_pval x l) (x :: l).
Proof.
  induction l as [|y l IH]; cbn [insert_by_pval]; [reflexivity|].
  destruct (Qle_bool (fst x) (fst y)); [reflexivity|].
  rewrite IH. apply perm_swap.
Qed.

Lemma argsort_perm (pvals : list Q) :
  Permutation (argsort pvals) (combine pvals (seq 0 (length pvals))).
Proof.
  unfold argsort. induction (combine pvals (seq 0 (length pvals))) as [|x l IH];
    cbn [fold_right]; [reflexivity|].
  rewrite insert_by_pval_perm. now constructor.
Qed.

Lemma in_combine_seq (pvals : list Q) (s : nat) (p : Q) (i : nat) :
  In (p, i) (combine pvals (seq s (length pvals))) ->
  s <= i /\ nth_error pvals (i - s) = Some p.
Proof.
  revert s; induction pvals as [|q pvals IH]; intros s Hin; [contradiction|].
  cbn [length seq combine] in Hin. destruct Hin as [Heq|Hin].
  - injection Heq as -> ->. rewrite Nat.sub_diag. split; [lia|reflexivity].
  - apply IH in Hin. destruct Hin as [Hle Hnth]. split; [lia|].
    replace (i - s) with (S (i - S s)) by lia. exact Hnth.
Qed.

Lemma nth_error_combine_seq (pvals : list Q) (s : nat) (p : Q) (i : nat) :
  nth_error pvals i = Some p ->
  In (p, i + s) (combine pvals (seq s (length pvals))).
Proof.
  revert s i; induction pvals as [|q l IH]; intros s i Hp;
    [destruct i; discriminate|].
  cbn [length seq combine]. destruct i as [|i]; cbn in Hp.
  - injection Hp as ->. now left.
  - right. replace (S i + s) with (i + S s) by lia. now apply IH.
Qed.

Lemma step_down_dominated (l : list (Q * nat)) (ntests : nat) :
  length l <= ntests ->
  Forall (fun x => (0 <= fst x)%Q) l ->
  Forall2 dominated l (step_down ntests l).
Proof.
  revert ntests; induction l as [|[p i] l IH]; intros ntests Hlen Hpos;
    cbn [step_down]; [constructor|].
  cbn [length] in Hlen. inversion Hpos as [|? ? Hp Hpos']; subst.
  constructor.
  - split; [reflexivity|]. cbn [fst] in *.
    assert (H1 : (1 <= inject_Z (Z.of_nat ntests))%Q).
    { change 1%Q with (inject_Z 1). rewrite <- Zle_Qle. lia. }
    nra.
  - apply IH; [lia | assumption].
Qed.

Lemma accumulate_from_dominated (l : list (Q * nat)) (m : Q) :
  Forall2 dominated l (accumulate_from m l).
Proof.
  revert m; induction l as [|[v i] l IH]; intros m; cbn [accumulate_from];
    constructor; [|apply IH].
  split; [reflexivity|]. apply Q.le_max_r.
Qed.

Lemma maximum_accumulate_dominated (l : list (Q * nat)) :
  Forall2 dominated l (maximum_accumulate l).
Proof.
  destruct l as [|[v i] l]; cbn [maximum_accumulate]; constructor.
  - split; [reflexivity | apply Qle_refl].
  - apply accumulate_from_dominated.
Qed.

Lemma cap_min (p v : Q) : (p <= v)%Q -> (Qmin p 1 <= cap v)%Q.
Proof.
  intros H. unfold cap. destruct (Qle_bool v 1) eqn:Hv.
  - eapply Qle_trans; [apply Q.le_min_l | exact H].
  - apply Q.le_min_r.
Qed.

Lemma cap_dominated (l l1 l2 : list (Q * nat)) :
  Forall2 dominated l l1 ->
  Forall2 dominated l1 l2 ->
  Forall2 (fun x y => snd x = snd y /\ (Qmin (fst x) 1 <= fst y)%Q) l
          (map (fun vi => (cap (fst vi), snd vi)) l2).
Proof.
  intros H1; revert l2; induction H1 as [|x y l l1 [Hs Hf] _ IH];
    intros l2 H2; inversion H2 as [|? z ? l2' [Hs' Hf'] H2']; subst;
    cbn [map]; constructor.
  - cbn [fst snd]. split; [congruence|].
    apply cap_min. eapply Qle_trans; eassumption.
  - now apply IH.
Qed.

Lemma corrected_dominates (l : list (Q * nat)) (ntests : nat) :
  length l <= ntests ->
  Forall (fun x => (0 <= fst x)%Q) l ->
  Forall2 (fun x y => snd x = snd y /\ (Qmin (fst x) 1 <= fst y)%Q) l
          (map (fun vi => (cap (fst vi), snd vi))
               (maximum_accumulate (step_down ntests l))).
Proof.
  intros Hlen Hpos.
  apply cap_dominated with (l1 := step_down ntests l).
  - now apply step_down_dominated.
  - apply maximum_accumulate_dominated.
Qed.

Lemma at_index_In (i : nat) (l : list (Q * nat)) :
  In i (map snd l) -> In (at_index i l, i) l.
Proof.
  induction l as [|[v j] l IH]; intros Hin; [contradiction|].
  cbn [at_index]. destruct (Nat.eqb_spec i j) as [->|Hne].
  - now left.
  - right. apply IH. destruct Hin as [Hin|Hin]; [cbn in Hin; congruence|].
    exact Hin.
Qed.

(** The model of the correction: one corrected value per p-value, in the
    order of the input, none of them below the p-value capped at 1. *)
Lemma holm_dominates (alpha : Q) (pvals corrected : list Q) :
  Forall (fun p => (0 <= p)%Q) pvals ->
  holm alpha pvals = Ok corrected ->
  length corrected = length pvals
  /\ forall i p q,
       nth_error pvals i = Some p -> nth_error corrected i = Some q ->
       (Qmin p 1 <= q)%Q.
Proof.
  intros Hpos H.
  assert (Hc : corrected =
               map (fun i => at_index i
                      (map (fun vi => (cap (fst vi), snd vi))
                           (maximum_accumulate
                              (step_down (length pvals) (argsort pvals)))))
                   (seq 0 (length pvals))).
  { destruct pvals; [discriminate|].
    unfold holm in H. cbv zeta in H. congruence. }
  clear H. subst corrected.
  split; [now rewrite length_map, length_seq|].
  intros i p q Hp Hq.
  assert (Hi : i < length pvals) by (apply nth_error_Some; congruence).
  rewrite nth_error_map, nth_error_seq in Hq.
  apply Nat.ltb_lt in Hi. rewrite Hi in Hq. cbn in Hq. injection Hq as <-.
  apply Nat.ltb_lt in Hi.
  pose proof (argsort_perm pvals) as Hperm.
  assert (Hlen : length (argsort pvals) <= length pvals).
  { rewrite (Permutation_length Hperm), length_combine, length_seq. lia. }
  assert (Hsorted_pos : Forall (fun x => (0 <= fst x)%Q) (argsort pvals)).
  { apply Forall_forall. intros [v j] Hin.
    apply (Permutation_in _ Hperm) in Hin.
    apply in_combine_seq in Hin. destruct Hin as [_ Hin].
    rewrite Forall_forall in Hpos. apply Hpos.
    eapply nth_error_In, Hin. }
  pose proof (corrected_dominates _ _ Hlen Hsorted_pos) as Hdom.
  set (corr := map _ (maximum_accumulate _)) in *.
  assert (Hidx : In i (map snd corr)).
  { assert (Hsnd : map snd corr = map snd (argsort pvals)).
    { clear -Hdom. induction Hdom as [|x y l l' [Hs _] _ IH]; [reflexivity|].
      cbn [map]. now rewrite IH, Hs. }
    rewrite Hsnd.
    apply (Permutation_in _ (Permutation_sym (Permutation_map snd Hperm))).
    apply in_map_iff. exists (p, i). split; [reflexivity|].
    rewrite <- (Nat.add_0_r i) at 1. now apply nth_error_combine_seq. }
  apply at_index_In in Hidx.
  destruct (Forall2_pick_l _ _ _ _ (Forall2_flip Hdom) Hidx)
    as ([p' j] & Hin & Hj & Hle). cbn [fst snd] in *. subst j.
  apply (Permutation_in _ Hperm) in Hin.
  apply in_combine_seq in Hin. destruct Hin as [_ Hin].
  rewrite Nat.sub_0_r in Hin. rewrite Hp in Hin. injection Hin as <-.
  exact Hle.
Qed.

End Holm.

Section HolmInTheOrchestrator.

Variables K Label Data : Type.
Variable K_eq_dec : forall a b : K, {a = b} + {a <> b}.
Variable K_leb : K -> K -> bool.
Variable Label_eq_dec : forall a b : Label, {a = b} + {a <> b}.
Variable iter_order : list K -> list K.

Lemma Qops_ltb_irrefl (x : Q) : ltb Qops x x = false.
Proof. cbn. apply negb_false_iff, Qle_bool_iff, Qle_refl. Qed.

Lemma Qops_not_below_floor (v : Q) :
  ltb Qops v (floor Qops) = false -> (0 <= v)%Q.
Proof.
  intros H.
  change (negb (Qle_bool (floor Qops) v) = false) in H.
  apply negb_false_iff, Qle_bool_iff in H.
  eapply Qle_trans; [|exact H].
  unfold Qle. vm_compute. discriminate.
Qed.

(** What the correction returns to the orchestrator: one value for each
    position of the flattened collection, the value at position [i] at
    least the clamped raw p-value of position [i] capped at 1, hence at
    least that p-value itself whenever it is a probability. *)
Lemma holm_call_dominates
        (investigations : list (Investigation K Label Data Q))
        (exact : bool) (level : Q) (pvals : list Q) (alpha : Q)
        (corrected : list Q) :
  In (Multipletests pvals alpha)
     (trace (compute_all_stats K_eq_dec K_leb Label_eq_dec Qops iter_order
                               holm investigations exact level)) ->
  holm alpha pvals = Ok corrected ->
  length corrected = length pvals
  /\ forall i p q,
       nth_error pvals i = Some p -> nth_error corrected i = Some q ->
       (Qmin p 1 <= q)%Q /\ ((p <= 1)%Q -> (p <= q)%Q).
Proof.
  intros Hin Hc. apply multipletests_event in Hin.
  destruct Hin as (total & adj & all_stats & _ & _ & _ & Hp & _).
  apply (all_pvals_not_below _ _ _ _ _ _ Qops_ltb_irrefl) in Hp.
  assert (Hpos : Forall (fun p => (0 <= p)%Q) pvals).
  { eapply Forall_impl; [|exact Hp]. apply Qops_not_below_floor. }
  destruct (holm_dominates alpha pvals corrected Hpos Hc) as [Hlen Hdom].
  split; [exact Hlen|]. intros i p q Hi Hq.
  pose proof (Hdom i p q Hi Hq) as Hle. split; [exact Hle|].
  intros Hp1. rewrite Q.min_l in Hle; assumption.
Qed.

End HolmInTheOrchestrator.

(** ** Dictionaries *)

Section DictFacts.

Variable K : Type.
Variable K_eq_dec : forall a b : K, {a = b} + {a <> b}.
Variable K_leb : K -> K -> bool.
Variable iter_order : list K -> list K.

Lemma flat_map_ext_in' {A B : Type} (f g : A -> list B) (l : list A) :
  (forall a, In a l -> f a = g a) -> flat_map f l = flat_map g l.
Proof.
  induction l as [|a l IH]; intros H; [reflexivity|].
  cbn [flat_map]. rewrite H by now left.
  f_equal. apply IH. intros a' Hin. apply H. now right.
Qed.

Lemma dict_find_In {V : Type} (k : K) (v : V) (d : dict K V) :
  dict_find K_eq_dec k d = Some v -> In (k, v) d.
Proof.
  induction d as [|[k' v'] d IH]; cbn [dict_find]; [discriminate|].
  destruct (K_eq_dec k k') as [->|Hne]; intros H.
  - injection H as ->. now left.
  - right. now apply IH.
Qed.

Lemma In_dict_find {V : Type} (k : K) (v : V) (d : dict K V) :
  NoDup (keys d) -> In (k, v) d -> dict_find K_eq_dec k d = Some v.
Proof.
  induction d as [|[k' v'] d IH]; intros Hnd Hin; [contradiction|].
  cbn [keys map fst] in Hnd. inversion Hnd as [|? ? Hnotin Hnd']; subst.
  cbn [dict_find]. destruct Hin as [Heq|Hin].
  - injection Heq as -> ->. now destruct (K_eq_dec k k).
  - destruct (K_eq_dec k k') as [->|Hne]; [|now apply IH].
    exfalso. apply Hnotin. apply in_map_iff. now exists (k', v).
Qed.

Lemma dict_find_None {V : Type} (k : K) (d : dict K V) :
  dict_find K_eq_dec k d = None -> ~ In k (keys d).
Proof.
  induction d as [|[k' v'] d IH]; cbn [dict_find keys map fst]; [tauto|].
  destruct (K_eq_dec k k') as [->|Hne]; [discriminate|].
  intros H [Heq|Hin]; [congruence|]. now apply IH.
Qed.

Lemma dict_find_perm {V : Type} (k : K) (d d' : dict K V) :
  NoDup (keys d) -> Permutation d d' ->
  dict_find K_eq_dec k d = dict_find K_eq_dec k d'.
Proof.
  intros Hnd Hperm.
  assert (Hnd' : NoDup (keys d')).
  { eapply Permutation_NoDup; [apply Permutation_map, Hperm | exact Hnd]. }
  destruct (dict_find K_eq_dec k d) as [v|] eqn:Hd.
  - symmetry. apply In_dict_find; [assumption|].
    eapply Permutation_in; [exact Hperm|]. now apply dict_find_In.
  - destruct (dict_find K_eq_dec k d') as [v'|] eqn:Hd'; [|reflexivity].
    apply dict_find_In in Hd'.
    apply (Permutation_in _ (Permutation_sym Hperm)) in Hd'.
    apply (In_dict_find _ _ _ Hnd) in Hd'. congruence.
Qed.

Lemma flat_map_find_self {V : Type} (items : list (K * V)) :
  NoDup (keys items) ->
  flat_map (fun k => match dict_find K_eq_dec k items with
                     | Some v => [(k, v)]
                     | None => []
                     end) (keys items) = items.
Proof.
  induction items as [|[k v] items IH]; intros Hnd; [reflexivity|].
  cbn [keys map fst] in *. inversion Hnd as [|? ? Hnotin Hnd']; subst.
  cbn [flat_map dict_find]. destruct (K_eq_dec k k) as [_|Hne]; [|congruence].
  cbn [app]. f_equal. rewrite <- (IH Hnd') at 2.
  apply flat_map_ext_in'. intros k' Hin.
  destruct (K_eq_dec k' k) as [->|Hne]; [contradiction|reflexivity].
Qed.

Lemma dict_of_items_perm {V : Type} (items : list (K * V)) :
  rearranges iter_order -> NoDup (keys items) ->
  Permutation (dict_of_items K_eq_dec iter_order items) items.
Proof.
  intros Hre Hnd. unfold dict_of_items.
  etransitivity; [apply Permutation_flat_map, Hre, Hnd|].
  pose proof (flat_map_find_self items Hnd) as E. unfold keys in E.
  rewrite E. reflexivity.
Qed.

Lemma insert_sorted_perm {V : Type} (kv : K * V) (l : list (K * V)) :
  Permutation (insert_sorted K_leb kv l) (kv :: l).
Proof.
  induction l as [|kv' l IH]; cbn [insert_sorted]; [reflexivity|].
  destruct (K_leb (fst kv) (fst kv')); [reflexivity|].
  rewrite IH. apply perm_swap.
Qed.

Lemma sorted_perm {V : Type} (d : dict K V) : Permutation (sorted K_leb d) d.
Proof.
  unfold sorted. induction d as [|kv d IH]; cbn [fold_right]; [reflexivity|].
  rewrite insert_sorted_perm. now constructor.
Qed.

Lemma dict_find_set_same {V : Type} (k : K) (v : V) (d : dict K V) :
  dict_find K_eq_dec k (dict_set K_eq_dec k v d) = Some v.
Proof.
  induction d as [|[k' v'] d IH]; cbn [dict_set dict_find].
  - now destruct (K_eq_dec k k).
  - destruct (K_eq_dec k k') as [->|Hne]; cbn [dict_find].
    + now destruct (K_eq_dec k' k').
    + now destruct (K_eq_dec k k').
Qed.

Lemma dict_find_set_other {V : Type} (k k' : K) (v : V) (d : dict K V) :
  k' <> k ->
  dict_find K_eq_dec k' (dict_set K_eq_dec k v d) = dict_find K_eq_dec k' d.
Proof.
  intros Hne. induction d as [|[k0 v0] d IH]; cbn [dict_set dict_find].
  - now destruct (K_eq_dec k' k).
  - destruct (K_eq_dec k k0) as [->|Hne0]; cbn [dict_find].
    + now destruct (K_eq_dec k' k0).
    + destruct (K_eq_dec k' k0); [reflexivity|assumption].
Qed.

Lemma keys_dict_set {V : Type} (k : K) (v v0 : V) (d : dict K V) :
  dict_find K_eq_dec k d = Some v0 ->
  keys (dict_set K_eq_dec k v d) = keys d.
Proof.
  induction d as [|[k' v'] d IH]; cbn [dict_set dict_find]; [discriminate|].
  destruct (K_eq_dec k k') as [->|Hne]; intros H; [reflexivity|].
  cbn [keys map fst] in *. f_equal. now apply IH.
Qed.

End DictFacts.

(** ** The compute and flatten passes *)

Section Flatten.

Variables K Label Data F : Type.
Variable K_eq_dec : forall a b : K, {a = b} + {a <> b}.
Variable K_leb : K -> K -> bool.
Variable Label_eq_dec : forall a b : Label, {a = b} + {a <> b}.
Variable ops : Arith F.
Variable iter_order : list K -> list K.
Variable multipletests : F -> list F -> result (list F).

Lemma as_frame_Table (s : Stats Label F) (df : DataFrame Label F) :
  as_frame s = Ok df -> s = Table df.
Proof. destruct s; cbn; congruence. Qed.

(** What [pd.concat] returns when it returns. *)
Lemma pd_concat_ok (sts : list (Stats Label F)) (df : DataFrame Label F) :
  pd_concat Label_eq_dec sts = Ok df ->
  exists dfs,
    sts = map Table dfs
    /\ dfs <> []
    /\ Forall (fun d => columns d = columns df) dfs
    /\ rows df = concat (map (@rows _ _) dfs).
Proof.
  unfold pd_concat. intros H.
  destruct (rmap (@as_frame Label F) sts) as [dfs|e] eqn:Hf; [|discriminate].
  cbn [rbind] in H. exists dfs.
  assert (Hsts : sts = map Table dfs).
  { apply rmap_Forall2 in Hf. clear H.
    induction Hf as [|s d sts dfs Hs _ IH]; [reflexivity|].
    cbn [map]. f_equal; [now apply as_frame_Table | exact IH]. }
  destruct dfs as [|df0 dfs']; [discriminate|].
  destruct (forallb _ _) eqn:Hall; [|discriminate].
  injection H as <-. cbn [columns rows].
  repeat split; [exact Hsts | discriminate |].
  apply Forall_forall. intros d Hin.
  rewrite forallb_forall in Hall. specialize (Hall d Hin).
  unfold same_columns in Hall.
  now destruct (list_eq_dec Label_eq_dec (columns d) (columns df0)).
Qed.

Lemma concat_rows_length (ctxts : list (Ctx Label Data F))
      (dfs : list (DataFrame Label F)) (exact : bool) (level : F) (n : nat) :
  map (computed exact level) ctxts = map Table dfs ->
  Forall (fun c => forall df, computed exact level c = Table df -> len df = n)
         ctxts ->
  length (concat (map (@rows _ _) dfs)) = length ctxts * n.
Proof.
  revert dfs; induction ctxts as [|c ctxts IH]; intros dfs Hmap Hall;
    destruct dfs as [|df dfs]; try discriminate; [reflexivity|].
  cbn [map] in Hmap. injection Hmap as Hc Hmap.
  inversion Hall as [|? ? Hhd Htl]; subst.
  cbn [map concat length]. rewrite length_app, (IH dfs Hmap Htl).
  specialize (Hhd df Hc). unfold len in Hhd. rewrite Hhd. lia.
Qed.

(** The rows that [compute_stats] returns for one attribute are as many
    as the hypotheses counted for it. *)
Lemma compute_stats_rows (ctxts : list (Ctx Label Data F)) (exact : bool)
      (level : F) (r : StatsDict Label F) :
  outcome (compute_stats Label_eq_dec ctxts exact level) = Ok r ->
  representative ctxts ->
  Forall (@computes_reference_rows _ _ _) ctxts ->
  length (d_stats r) = hypotheses_of ctxts.
Proof.
  intros Hok Hrep Hrows. destruct ctxts as [|c0 rest]; [discriminate|].
  unfold compute_stats in Hok. rewrite mapM_call_compute in Hok.
  cbn [lift bind app] in Hok. cbn [hypotheses_of representative] in *.
  destruct (stats (metric c0)) as [row|ref] eqn:Href.
  - cbn in Hok. injection Hok as <-. cbn. now rewrite length_map.
  - destruct (pd_concat Label_eq_dec _) as [df|e] eqn:Hcat; [|discriminate].
    cbn in Hok. injection Hok as <-. cbn [d_stats].
    rewrite !length_map.
    apply pd_concat_ok in Hcat. destruct Hcat as (dfs & Hsts & _ & _ & Hr).
    rewrite Hr. apply (concat_rows_length _ _ exact level); [exact Hsts|].
    apply Forall_forall. intros c Hin df' Hc.
    rewrite Forall_forall in Hrep, Hrows.
    destruct (Hrep c Hin) as (ref_c & Hrc & Hlen).
    rewrite <- Hlen. eapply (Hrows c Hin); eassumption.
Qed.

(** What the compute pass returns for one investigation when it returns. *)
Lemma compute_inv_ok exact adj (inv : Investigation K Label Data F)
      (d : dict K (StatsDict Label F)) :
  outcome (compute_inv K_eq_dec K_leb Label_eq_dec iter_order exact adj inv)
  = Ok d ->
  exists items,
    Forall2 (fun kv it =>
               fst it = fst kv
               /\ outcome (compute_stats Label_eq_dec (snd kv) exact adj)
                  = Ok (snd it))
            (sorted K_leb (contexts inv)) items
    /\ d = dict_of_items K_eq_dec iter_order items.
Proof.
  unfold compute_inv. rewrite outcome_bind, outcome_mapM. intros H.
  destruct (rmap _ (sorted K_leb (contexts inv))) as [items|e] eqn:Hm;
    [|discriminate].
  cbn in H. injection H as <-. exists items. split; [|reflexivity].
  apply rmap_Forall2 in Hm.
  eapply Forall2_impl; [|exact Hm]. intros kv it Hit. cbv beta in Hit.
  rewrite outcome_bind in Hit.
  destruct (outcome (compute_stats _ _ _ _)) as [r|e]; [|discriminate].
  cbn in Hit. injection Hit as <-. now split.
Qed.

Lemma Forall2_keys {V W : Type} (l : list (K * V)) (l' : list (K * W)) :
  Forall2 (fun kv it => fst it = fst kv) l l' -> keys l' = keys l.
Proof.
  induction 1 as [|kv it l l' Hk _ IH]; [reflexivity|].
  cbn [keys map]. f_equal; assumption.
Qed.

Lemma compute_inv_keys exact adj (inv : Investigation K Label Data F)
      (items : list (K * StatsDict Label F)) :
  Forall2 (fun kv it =>
             fst it = fst kv
             /\ outcome (compute_stats Label_eq_dec (snd kv) exact adj)
                = Ok (snd it))
          (sorted K_leb (contexts inv)) items ->
  keys items = keys (sorted K_leb (contexts inv)).
Proof.
  intros H. apply Forall2_keys.
  eapply Forall2_impl; [|exact H]. now intros kv it [Hk _].
Qed.

Lemma compute_inv_rows exact adj (inv : Investigation K Label Data F)
      (d : dict K (StatsDict Label F)) :
  rearranges iter_order -> distinct_keys inv -> well_shaped inv ->
  outcome (compute_inv K_eq_dec K_leb Label_eq_dec iter_order exact adj inv)
  = Ok d ->
  length (flat_map (@d_stats _ _) (values d)) = num_hypotheses_spec inv.
Proof.
  intros Hre Hnd Hshape Hok. apply compute_inv_ok in Hok.
  destruct Hok as (items & Hitems & ->).
  pose proof (sorted_perm _ K_leb (contexts inv)) as Hsorted.
  assert (Hkeys : NoDup (keys items)).
  { rewrite (compute_inv_keys _ _ _ _ Hitems).
    eapply Permutation_NoDup;
      [apply Permutation_sym, Permutation_map, Hsorted | exact Hnd]. }
  pose proof (dict_of_items_perm _ K_eq_dec iter_order items Hre Hkeys)
    as Hperm.
  rewrite (Permutation_length
             (Permutation_flat_map _ (Permutation_map snd Hperm))).
  unfold num_hypotheses_spec.
  rewrite <- (Permutation_list_sum
                (Permutation_map _ (Permutation_map snd Hsorted))).
  assert (Hin : forall kv, In kv (sorted K_leb (contexts inv)) ->
                           In kv (contexts inv)).
  { intros kv. apply Permutation_in, Hsorted. }
  clear Hperm Hkeys Hsorted.
  induction Hitems as [|kv it l l' [_ Hkv] _ IH]; [reflexivity|].
  cbn [values map flat_map list_sum fold_right]. rewrite length_app.
  f_equal.
  - destruct kv as [sens ctxts]. cbn [snd] in *.
    destruct (Hshape sens ctxts (Hin _ (or_introl eq_refl))) as [Hrep Hrows].
    eapply compute_stats_rows; eassumption.
  - apply IH. intros kv' Hin'. apply Hin. now right.
Qed.

Let run (investigations : list (Investigation K Label Data F))
    (exact : bool) (level : F) :=
  compute_all_stats K_eq_dec K_leb Label_eq_dec ops iter_order multipletests
                    investigations exact level.

(** C4. In a batch of well-formed investigations in which every tabular
    metric's [compute] returns a table with the row count of the reference
    table, the collection that [compute_all_stats] passes to the
    correction has exactly [T] elements, [T] being the total of
    [num_hypotheses] over the batch. *)
Theorem flattened_length investigations exact level pvals alpha :
  rearranges iter_order ->
  Forall (@distinct_keys _ _ _ _) investigations ->
  Forall (@well_shaped _ _ _ _) investigations ->
  In (Multipletests pvals alpha) (trace (run investigations exact level)) ->
  exists total,
    total_hypotheses investigations = Ok total /\ length pvals = total.
Proof.
  intros Hre Hnd Hshape Hin. apply multipletests_event in Hin.
  destruct Hin as (total & adj & all_stats & Ht & _ & Hcp & Hp & _).
  exists total. split; [exact Ht|].
  apply rmap_length in Hp. rewrite Hp. clear Hp.
  unfold total_hypotheses in Ht.
  destruct (rmap (@num_hypotheses _ _ _ _) investigations) as [ns|e] eqn:Hns;
    [|discriminate].
  cbn in Ht. injection Ht as <-.
  rewrite outcome_mapM in Hcp. apply rmap_Forall2 in Hcp, Hns.
  unfold flat_stats. revert ns Hns.
  induction Hcp as [|inv d invs ds Hd _ IH]; intros ns Hns;
    inversion Hns as [|? n ? ns' Hn Hns']; subst; [reflexivity|].
  inversion Hnd; inversion Hshape; subst.
  cbn [flat_map list_sum fold_right]. rewrite length_app. f_equal.
  - apply num_hypotheses_inv in Hn. destruct Hn as [-> _].
    eapply compute_inv_rows; eassumption.
  - now apply IH.
Qed.

End Flatten.

Lemma insertion_order_rearranges {K : Type} : rearranges (@insertion_order K).
Proof. intros ks _. apply Permutation_refl. Qed.

Lemma two_tables_distinct_keys :
  Forall (@distinct_keys _ _ _ _) [Example.two_tables].
Proof. repeat constructor. intros []. Qed.

Lemma two_tables_well_shaped :
  Forall (@well_shaped _ _ _ _) [Example.two_tables].
Proof.
  repeat constructor; destruct H as [H|[]]; injection H as <- <-;
    cbn; repeat constructor;
    try (eexists; split; reflexivity);
    intros ref level exact df Hr Hc; cbn in Hr, Hc;
    injection Hr as <-; injection Hc as <-; reflexivity.
Qed.

Lemma flattened_length_witness :
  let pvals := [1 # 100; 2 # 100; 3 # 100; 4 # 100]%Q in
  let alpha := (1 - (95 # 100))%Q in
  rearranges (@insertion_order Z)
  /\ Forall (@distinct_keys _ _ _ _) [Example.two_tables]
  /\ Forall (@well_shaped _ _ _ _) [Example.two_tables]
  /\ In (Multipletests pvals alpha)
        (trace (Example.run insertion_order [Example.two_tables] true
                            (95 # 100)))
  /\ exists total,
       total_hypotheses [Example.two_tables] = Ok total
       /\ length pvals = total.
Proof.
  intros pvals alpha.
  pose proof (@insertion_order_rearranges Z) as Hre.
  pose proof two_tables_distinct_keys as Hnd.
  pose proof two_tables_well_shaped as Hshape.
  assert (Hin : In (Multipletests pvals alpha)
                   (trace (Example.run insertion_order [Example.two_tables]
                                       true (95 # 100)))).
  { vm_compute. right. right. right. left. reflexivity. }
  repeat (split; [assumption|]).
  exact (flattened_length _ _ _ _ Z.eq_dec Z.leb string_dec Qops
           insertion_order holm _ _ _ _ _ Hre Hnd Hshape Hin).
Defined.

(** ** Splitting a table back *)





(** ** The scatter and reassembly passes *)

Section Reassembly.

Variables K Label Data F : Type.
Variable K_eq_dec : forall a b : K, {a = b} + {a <> b}.
Variable K_leb : K -> K -> bool.
Variable Label_eq_dec : forall a b : Label, {a = b} + {a <> b}.
Variable ops : Arith F.
Variable iter_order : list K -> list K.
Variable multipletests : F -> list F -> result (list F).











(** The reassembly pass of one investigation: the keys stay, and the
    entry of each tabular attribute is re-formed once. *)
Lemma reassemble_inv_spec (items : list (K * list (Ctx Label Data F)))
      (d d'' : dict K (StatsDict Label F)) :
  NoDup (map fst items) ->
  reassemble_inv K_eq_dec items d = Ok d'' ->
  keys d'' = keys d
  /\ (forall k, ~ In k (map fst items) ->
                dict_find K_eq_dec k d'' = dict_find K_eq_dec k d)
  /\ (forall sens c0 rest ref,
        In (sens, c0 :: rest) items ->
        stats (metric c0) = Table ref ->
        exists res res',
          dict_find K_eq_dec sens d = Some res
          /\ reform ref res = Ok res'
          /\ dict_find K_eq_dec sens d'' = Some res').
Proof.
  revert d; induction items as [|[sens ctxts] items IH]; intros d Hnd H.
  - cbn in H. injection H as <-. repeat split; try reflexivity.
    intros ? ? ? ? [].
  - cbn [map fst] in Hnd. inversion Hnd as [|? ? Hnotin Hnd']; subst.
    cbn [reassemble_inv] in H.
    destruct ctxts as [|c0 rest]; [discriminate|].
    destruct (stats (metric c0)) as [row|ref] eqn:Href.
    + destruct (IH d Hnd' H) as (Hk & Hother & Htab).
      split; [exact Hk|]. split.
      * intros k Hk'. apply Hother. intros Hin. apply Hk'. now right.
      * intros sens' c0' rest' ref' [Heq|Hin] Href'.
        -- injection Heq as -> -> ->. congruence.
        -- eapply Htab; eassumption.
    + unfold dict_get in H.
      destruct (dict_find K_eq_dec sens d) as [res|] eqn:Hf; [|discriminate].
      cbn [rbind] in H.
      destruct (reform ref res) as [res'|e] eqn:Hre; [|discriminate].
      cbn [rbind] in H.
      destruct (IH _ Hnd' H) as (Hk & Hother & Htab).
      split; [|split].
      * rewrite Hk. eapply keys_dict_set, Hf.
      * intros k Hk'. rewrite Hother by (intros Hin; apply Hk'; now right).
        apply dict_find_set_other. intros ->. apply Hk'. now left.
      * intros sens' c0' rest' ref' [Heq|Hin] Href'.
        -- injection Heq as -> -> ->.
           assert (ref' = ref) by congruence. subst ref'.
           exists res, res'. repeat split; [assumption..|].
           rewrite (Hother sens' Hnotin). apply dict_find_set_same.
        -- destruct (Htab _ _ _ _ Hin Href') as (r1 & r1' & Hf1 & Hre1 & Hf1').
           exists r1, r1'. repeat split; [|assumption..].
           rewrite <- Hf1. symmetry. apply dict_find_set_other.
           intros ->. apply Hnotin. apply in_map_iff.
           now exists (sens, c0' :: rest').
Qed.




Lemma dict_find_map {V W : Type} (f : V -> W) (k : K) (d : dict K V) :
  dict_find K_eq_dec k (map (fun kv => (fst kv, f (snd kv))) d) =
  option_map f (dict_find K_eq_dec k d).
Proof.
  induction d as [|[k' v] d IH]; [reflexivity|].
  cbn [map dict_find fst snd]. now destruct (K_eq_dec k k').
Qed.

Lemma keys_map_values {V W : Type} (f : V -> W) (d : dict K V) :
  keys (map (fun kv => (fst kv, f (snd kv))) d) = keys d.
Proof. unfold keys. rewrite map_map. reflexivity. Qed.

Lemma strip_spec (d : dict K (StatsDict Label F)) :
  rearranges iter_order -> NoDup (keys d) ->
  Permutation (keys (strip K_eq_dec iter_order d)) (keys d)
  /\ forall k, dict_find K_eq_dec k (strip K_eq_dec iter_order d) =
               option_map (@d_stats _ _) (dict_find K_eq_dec k d).
Proof.
  intros Hre Hnd. unfold strip.
  set (items := map (fun kv => (fst kv, d_stats (snd kv))) d).
  assert (Hk : keys items = keys d) by apply keys_map_values.
  assert (Hnd' : NoDup (keys items)) by now rewrite Hk.
  pose proof (dict_of_items_perm _ K_eq_dec iter_order items Hre Hnd')
    as Hperm.
  split.
  - rewrite <- Hk. apply Permutation_map, Hperm.
  - intros k.
    rewrite <- (dict_find_perm _ K_eq_dec k _ _ Hnd' (Permutation_sym Hperm)).
    apply dict_find_map.
Qed.



Let run (investigations : list (Investigation K Label Data F))
    (exact : bool) (level : F) :=
  compute_all_stats K_eq_dec K_leb Label_eq_dec ops iter_order multipletests
                    investigations exact level.


End Reassembly.


(** ** The order of the scatter pass *)

(** How CPython 2.7 orders the keys of [Example.ordered] and of
    [Example.colliding] in a fresh dictionary. *)
Lemma fresh_dict_orders :
  Py27.iter_order [1; 8]%Z = [8; 1]%Z
  /\ Py27.iter_order [8; 0]%Z = [8; 0]%Z
  /\ Py27.iter_order [0; 8]%Z = [0; 8]%Z.
Proof. repeat split; reflexivity. Qed.

(** C1 at [Example.ordered], whose [contexts] iterates in sorted order,
    1 then 8.  The compute pass visits the attributes in that order, but
    the flatten pass reads the dictionary the comprehension built, which
    iterates 8 then 1: the flattened collection is [0.04; 0.01] and its
    correction [0.04; 0.02].  The scatter pass walks [inv.contexts], 1
    then 8: the first corrected value, 0.04, which belongs to the row of
    attribute 8, lands in the row of attribute 1 (raw 0.01), and the
    second, 0.02, in the row of attribute 8 (raw 0.04).
    At [Example.colliding] it is [inv.contexts] that is out of sorted
    order, with the same outcome. *)
Theorem scatter_order_mismatch :
  let adj := (1 - (1 - (95 # 100)) / inject_Z 2)%Q in
  let alpha := (1 - (95 # 100))%Q in
  (keys (contexts Example.ordered) = [1; 8]%Z
   /\ holm alpha [4 # 100; 1 # 100]%Q = Ok [4 # 100; 2 # 100]%Q
   /\ Example.run Py27.iter_order [Example.ordered] true (95 # 100) =
      ([LogInfo 2; Compute 1 adj true; Compute 8 adj true;
        Multipletests [4 # 100; 1 # 100]%Q alpha],
       Ok [[(8%Z, [Row [adj; 2 # 100]%Q]); (1%Z, [Row [adj; 4 # 100]%Q])]]))
  /\ (keys (contexts Example.colliding) = [8; 0]%Z
      /\ holm alpha [1 # 100; 4 # 100]%Q = Ok [2 # 100; 4 # 100]%Q
      /\ Example.run Py27.iter_order [Example.colliding] true (95 # 100) =
         ([LogInfo 2; Compute 0 adj true; Compute 8 adj true;
           Multipletests [1 # 100; 4 # 100]%Q alpha],
          Ok [[(0%Z, [Row [adj; 4 # 100]%Q]);
               (8%Z, [Row [adj; 2 # 100]%Q])]])).
Proof.
  cbv zeta. repeat split; vm_compute; reflexivity.
Qed.

(** C5 at [Example.colliding], a dictionary filled with the key 8 and then
    the key 0, and at [Example.ordered].  At [Example.colliding] the
    flatten pass reads the row of attribute 0 (raw p-value 0.01) and then
    the row of attribute 8 (raw 0.04): the correction is fed [0.01; 0.04]
    and returns [0.02; 0.04], each value at least the one fed at its
    position.  The scatter pass walks [inv.contexts], 8 before 0, and
    writes position 0's value into the row of attribute 8: the row that
    fed 0.04 at position 1 comes back with 0.02.  At [Example.ordered] the
    row of attribute 8 feeds 0.04 at position 0 and comes back with 0.02
    in the same way. *)
Theorem corrected_written_below_raw :
  let adj := (1 - (1 - (95 # 100)) / inject_Z 2)%Q in
  let alpha := (1 - (95 # 100))%Q in
  let entry p := {| d_stats := [Row (Label := string) [adj; p]];
                    d_index := None; d_cols := None |} in
  let compute_pass :=
    mapM (compute_inv Z.eq_dec Z.leb string_dec Py27.iter_order true adj) in
  (outcome (compute_pass [Example.colliding]) =
     Ok [[(0%Z, entry (1 # 100)); (8%Z, entry (4 # 100))]]
   /\ In (Multipletests [1 # 100; 4 # 100]%Q alpha)
         (trace (Example.run Py27.iter_order [Example.colliding] true
                             (95 # 100)))
   /\ holm alpha [1 # 100; 4 # 100]%Q = Ok [2 # 100; 4 # 100]%Q
   /\ outcome (Example.run Py27.iter_order [Example.colliding] true
                           (95 # 100)) =
      Ok [[(0%Z, [Row [adj; 4 # 100]%Q]); (8%Z, [Row [adj; 2 # 100]%Q])]]
   /\ (2 # 100 < 4 # 100)%Q)
  /\ (outcome (compute_pass [Example.ordered]) =
        Ok [[(8%Z, entry (4 # 100)); (1%Z, entry (1 # 100))]]
      /\ In (Multipletests [4 # 100; 1 # 100]%Q alpha)
            (trace (Example.run Py27.iter_order [Example.ordered] true
                                (95 # 100)))
      /\ holm alpha [4 # 100; 1 # 100]%Q = Ok [4 # 100; 2 # 100]%Q
      /\ outcome (Example.run Py27.iter_order [Example.ordered] true
                              (95 # 100)) =
         Ok [[(8%Z, [Row [adj; 2 # 100]%Q]); (1%Z, [Row [adj; 4 # 100]%Q])]]
      /\ (2 # 100 < 4 # 100)%Q).
Proof.
  cbv zeta.
  repeat split; try (vm_compute; reflexivity);
    vm_compute; right; right; right; left; reflexivity.
Qed.

(** When, for every investigation, the dictionary built by the compute
    pass iterates in the order of [inv.contexts], the scatter pass meets
    the stat rows in the order of the flatten pass, and the [i]-th
    corrected p-value replaces the p-value of the [i]-th flattened row. *)

Section ScatterOrder.

Variables K Label Data F : Type.
Variable K_eq_dec : forall a b : K, {a = b} + {a <> b}.

(** A row that the flatten pass could read keeps all its fields but the
    last, which becomes the corrected p-value. *)
Lemma last_field_ok (s : Stats Label F) (p : F) :
  last_field s = Ok p -> exists r, s = Row (r ++ [p]).
Proof.
  destruct s as [r|df]; cbn [last_field]; [|discriminate].
  destruct (rev r) as [|p' r'] eqn:Hr; [discriminate|].
  intros H. injection H as ->. exists (rev r'). f_equal.
  rewrite <- (rev_involutive r), Hr. reflexivity.
Qed.

Lemma replace_pval_last (r : list F) (p q : F) :
  replace_pval (Row (Label := Label) (r ++ [p])) q = Row (r ++ [q]).
Proof. cbn [replace_pval]. now rewrite removelast_last. Qed.








End ScatterOrder.

(** * Further properties of the module *)

(** ** Counting *)

Section CountingEdges.

Variables K Label Data F : Type.
Variable K_eq_dec : forall a b : K, {a = b} + {a <> b}.
Variable K_leb : K -> K -> bool.
Variable Label_eq_dec : forall a b : Label, {a = b} + {a <> b}.
Variable ops : Arith F.
Variable iter_order : list K -> list K.
Variable multipletests : F -> list F -> result (list F).

Lemma num_hypotheses_loop_raises (vals : list (list (Ctx Label Data F)))
      (tot : nat) :
  In [] vals -> num_hypotheses_loop vals tot = Raise IndexError.
Proof.
  revert tot; induction vals as [|ctxts vals IH]; intros tot Hin;
    [contradiction|].
  destruct ctxts as [|c0 rest]; [reflexivity|].
  destruct Hin as [Heq|Hin]; [discriminate|].
  cbn [num_hypotheses_loop]. destruct (stats (metric c0)); now apply IH.
Qed.

Lemma num_hypotheses_loop_exn (vals : list (list (Ctx Label Data F)))
      (tot : nat) (e : exn) :
  num_hypotheses_loop vals tot = Raise e -> e = IndexError.
Proof.
  revert tot; induction vals as [|ctxts vals IH]; intros tot H;
    [discriminate|].
  destruct ctxts as [|c0 rest]; [cbn in H; congruence|].
  cbn [num_hypotheses_loop] in H. destruct (stats (metric c0)); eapply IH, H.
Qed.

Lemma empty_or_not (vals : list (list (Ctx Label Data F))) :
  In [] vals \/ Forall (fun ctxts => ctxts <> []) vals.
Proof.
  induction vals as [|ctxts vals [IH|IH]].
  - right. constructor.
  - left. now right.
  - destruct ctxts as [|c0 rest]; [left; now left|].
    right. constructor; [discriminate | exact IH].
Qed.

Lemma total_hypotheses_raises
      (investigations : list (Investigation K Label Data F))
      (inv : Investigation K Label Data F) :
  In inv investigations ->
  num_hypotheses inv = Raise IndexError ->
  total_hypotheses investigations = Raise IndexError.
Proof.
  intros Hin Hraise. unfold total_hypotheses.
  induction investigations as [|inv' invs IH]; [contradiction|].
  cbn [rmap]. destruct (num_hypotheses inv') as [n|e] eqn:Hn.
  - destruct Hin as [->|Hin]; [congruence|].
    cbn [rbind] in *.
    destruct (rmap (@num_hypotheses _ _ _ _) invs) as [ns|e] eqn:Hr;
      [specialize (IH Hin); discriminate|].
    cbn [rbind] in *. exact (IH Hin).
  - cbn [rbind]. f_equal. eapply num_hypotheses_loop_exn, Hn.
Qed.

(** X1. An attribute with an empty context list anywhere in the batch
    makes [compute_all_stats] raise [IndexError] ([contexts[0]] in
    [num_hypotheses]) before the log line and before any metric is
    computed. *)
Theorem empty_context_list_raises
        (investigations : list (Investigation K Label Data F))
        (inv : Investigation K Label Data F) (sens : K)
        (exact : bool) (level : F) :
  In inv investigations ->
  In (sens, []) (contexts inv) ->
  num_hypotheses inv = Raise IndexError
  /\ compute_all_stats K_eq_dec K_leb Label_eq_dec ops iter_order multipletests
                       investigations exact level
     = ([], Raise IndexError).
Proof.
  intros Hinv Hsens.
  assert (Hn : num_hypotheses inv = Raise IndexError).
  { apply num_hypotheses_loop_raises.
    apply in_map_iff. now exists (sens, []). }
  split; [exact Hn|].
  unfold compute_all_stats.
  rewrite (total_hypotheses_raises investigations inv Hinv Hn). reflexivity.
Qed.

(** X2. The count of [num_hypotheses] does not depend on the order in
    which [inv.contexts] iterates: two investigations whose dictionaries
    hold the same entries get the same count, or both raise. *)
Theorem num_hypotheses_order_independent
        (inv inv' : Investigation K Label Data F) :
  Permutation (contexts inv) (contexts inv') ->
  num_hypotheses inv = num_hypotheses inv'.
Proof.
  intros Hperm. unfold num_hypotheses.
  pose proof (Permutation_map snd Hperm) as Hvals.
  fold (values (contexts inv)) (values (contexts inv')) in Hvals.
  destruct (empty_or_not (values (contexts inv))) as [Hempty|Hfull].
  - rewrite (num_hypotheses_loop_raises _ 0 Hempty).
    symmetry. apply num_hypotheses_loop_raises.
    eapply Permutation_in; eassumption.
  - assert (Hfull' : Forall (fun ctxts => ctxts <> [])
                            (values (contexts inv'))).
    { eapply Permutation_Forall; eassumption. }
    rewrite (num_hypotheses_loop_sum _ _ _ _ 0 Hfull).
    rewrite (num_hypotheses_loop_sum _ _ _ _ 0 Hfull').
    do 2 f_equal. apply Permutation_list_sum, Permutation_map, Hvals.
Qed.

End CountingEdges.

Lemma empty_context_list_raises_witness :
  In Edge.hollow [Example.three_contexts; Edge.hollow]
  /\ In (2%Z, []) (contexts Edge.hollow)
  /\ Example.run insertion_order [Example.three_contexts; Edge.hollow]
                 true (95 # 100)
     = ([], Raise IndexError).
Proof.
  assert (H1 : In Edge.hollow [Example.three_contexts; Edge.hollow])
    by (right; left; reflexivity).
  assert (H2 : In (2%Z, []) (contexts Edge.hollow))
    by (right; left; reflexivity).
  split; [exact H1|]. split; [exact H2|].
  exact (proj2 (empty_context_list_raises _ _ _ _ Z.eq_dec Z.leb string_dec
                  Qops insertion_order holm _ _ _ true (95 # 100) H1 H2)).
Defined.

Lemma num_hypotheses_order_independent_witness :
  Permutation (contexts Example.mixed) (contexts Edge.mixed_swapped)
  /\ num_hypotheses Example.mixed = num_hypotheses Edge.mixed_swapped.
Proof.
  assert (H : Permutation (contexts Example.mixed)
                          (contexts Edge.mixed_swapped))
    by apply perm_swap.
  split; [exact H|].
  exact (num_hypotheses_order_independent _ _ _ _ _ _ H).
Defined.

(** ** The compute pass *)

Section SortedItems.

Variable K : Type.
Variable K_leb : K -> K -> bool.
Hypothesis K_leb_order : total_order K_leb.

Lemma insert_sorted_ascending {V : Type} (kv : K * V) (l : list (K * V)) :
  ascending K_leb l -> ascending K_leb (insert_sorted K_leb kv l).
Proof.
  destruct K_leb_order as (Htot & _ & Htrans).
  induction l as [|kv' l IH]; intros Hl; cbn [insert_sorted].
  - cbn. split; [constructor | exact I].
  - destruct Hl as [Hhd Htl].
    destruct (K_leb (fst kv) (fst kv')) eqn:Hle.
    + cbn [ascending]. split; [|split; assumption].
      constructor; [exact Hle|].
      eapply Forall_impl; [|exact Hhd]. intros x Hx. eapply Htrans; eassumption.
    + cbn [ascending]. split; [|now apply IH].
      assert (Hge : K_leb (fst kv') (fst kv) = true).
      { destruct (Htot (fst kv) (fst kv')); congruence. }
      eapply Permutation_Forall;
        [apply Permutation_sym, insert_sorted_perm|].
      now constructor.
Qed.

Lemma sorted_ascending {V : Type} (d : dict K V) :
  ascending K_leb (sorted K_leb d).
Proof.
  unfold sorted. induction d as [|kv d IH]; cbn [fold_right]; [exact I|].
  now apply insert_sorted_ascending.
Qed.

Lemma same_key_same_entry {V : Type} (l : list (K * V)) (x y : K * V) :
  NoDup (keys l) -> In x l -> In y l -> fst x = fst y -> x = y.
Proof.
  induction l as [|z l IH]; intros Hnd Hx Hy Hk; [contradiction|].
  cbn [keys map] in Hnd. inversion Hnd as [|? ? Hnotin Hnd']; subst.
  destruct Hx as [->|Hx], Hy as [->|Hy].
  - reflexivity.
  - exfalso. apply Hnotin. rewrite Hk. now apply in_map.
  - exfalso. apply Hnotin. rewrite <- Hk. now apply in_map.
  - now apply IH.
Qed.

Lemma ascending_unique {V : Type} (l l' : list (K * V)) :
  NoDup (keys l) -> Permutation l l' ->
  ascending K_leb l -> ascending K_leb l' -> l = l'.
Proof.
  destruct K_leb_order as (_ & Hanti & _).
  revert l'; induction l as [|x l IH]; intros l' Hnd Hperm Hl Hl'.
  - apply Permutation_nil in Hperm. now subst.
  - destruct l' as [|y l'];
      [apply Permutation_sym, Permutation_nil in Hperm; discriminate|].
    destruct Hl as [Hx Hl], Hl' as [Hy Hl'].
    assert (Hxy : x = y).
    { assert (Hxin : In x (y :: l'))
        by (eapply Permutation_in; [exact Hperm | now left]).
      assert (Hyin : In y (x :: l))
        by (eapply Permutation_in;
            [apply Permutation_sym, Hperm | now left]).
      destruct Hxin as [<-|Hxin]; [reflexivity|].
      destruct Hyin as [<-|Hyin]; [reflexivity|].
      rewrite Forall_forall in Hx, Hy.
      apply (same_key_same_entry (x :: l)); [exact Hnd | now left | now right|].
      apply Hanti; [apply Hx, Hyin | apply Hy, Hxin]. }
    subst y. f_equal. apply IH; try assumption.
    + cbn [keys map] in Hnd. now inversion Hnd.
    + eapply Permutation_cons_inv, Hperm.
Qed.

(** Whatever the order in which a dictionary iterates, [sorted] lists its
    items the same way. *)
Lemma sorted_canonical {V : Type} (d d' : dict K V) :
  NoDup (keys d) -> Permutation d d' ->
  sorted K_leb d = sorted K_leb d'.
Proof.
  intros Hnd Hperm. apply ascending_unique.
  - eapply Permutation_NoDup;
      [apply Permutation_map, Permutation_sym, sorted_perm | exact Hnd].
  - rewrite (sorted_perm _ K_leb d), (sorted_perm _ K_leb d'). exact Hperm.
  - apply sorted_ascending.
  - apply sorted_ascending.
Qed.

End SortedItems.

Section ComputePass.

Variables K Label Data F : Type.
Variable K_eq_dec : forall a b : K, {a = b} + {a <> b}.
Variable K_leb : K -> K -> bool.
Variable Label_eq_dec : forall a b : Label, {a = b} + {a <> b}.
Variable iter_order : list K -> list K.

(** X3. The compute pass does not depend on the order in which
    [inv.contexts] iterates: for two investigations whose dictionaries hold
    the same entries, [sorted] makes it call the metrics in the same order
    and build the same dictionary of results. *)
Theorem compute_pass_order_independent
        (inv inv' : Investigation K Label Data F) (exact : bool) (adj : F) :
  total_order K_leb ->
  distinct_keys inv ->
  Permutation (contexts inv) (contexts inv') ->
  compute_inv K_eq_dec K_leb Label_eq_dec iter_order exact adj inv =
  compute_inv K_eq_dec K_leb Label_eq_dec iter_order exact adj inv'.
Proof.
  intros Hord Hnd Hperm. unfold compute_inv.
  now rewrite (sorted_canonical K K_leb Hord _ _ Hnd Hperm).
Qed.

Lemma compute_inv_lookup
        (inv : Investigation K Label Data F) (exact : bool) (adj : F)
        (d : dict K (StatsDict Label F)) :
  rearranges iter_order ->
  distinct_keys inv ->
  outcome (compute_inv K_eq_dec K_leb Label_eq_dec iter_order exact adj inv)
  = Ok d ->
  Permutation (keys d) (keys (contexts inv))
  /\ forall sens ctxts,
       In (sens, ctxts) (contexts inv) ->
       exists r,
         dict_find K_eq_dec sens d = Some r
         /\ outcome (compute_stats Label_eq_dec ctxts exact adj) = Ok r.
Proof.
  intros Hre Hnd Hok. apply compute_inv_ok in Hok.
  destruct Hok as (items & Hitems & ->).
  pose proof (sorted_perm _ K_leb (contexts inv)) as Hsorted.
  assert (Hki : keys items = keys (sorted K_leb (contexts inv)))
    by (eapply compute_inv_keys, Hitems).
  assert (Hndi : NoDup (keys items)).
  { rewrite Hki. eapply Permutation_NoDup;
      [apply Permutation_sym, Permutation_map, Hsorted | exact Hnd]. }
  pose proof (dict_of_items_perm _ K_eq_dec iter_order items Hre Hndi)
    as Hperm.
  split.
  - unfold keys in *. etransitivity; [apply Permutation_map, Hperm|].
    rewrite Hki. apply Permutation_map, Hsorted.
  - intros sens ctxts Hin.
    assert (Hins : In (sens, ctxts) (sorted K_leb (contexts inv))).
    { eapply Permutation_in; [apply Permutation_sym, Hsorted | exact Hin]. }
    destruct (Forall2_pick_l _ _ _ _ Hitems Hins) as ([k r] & Hit & Hk & Hcs).
    cbn [fst snd] in Hk, Hcs. subst k. exists r. split; [|exact Hcs].
    rewrite (dict_find_perm _ K_eq_dec sens _ items).
    + now apply In_dict_find.
    + eapply Permutation_NoDup;
        [apply Permutation_sym, Permutation_map, Hperm | exact Hndi].
    + exact Hperm.
Qed.

(** X4. The dictionary that the compute pass builds for an investigation
    has the keys of [inv.contexts] and holds, under each key, what
    [compute_stats] returned for the contexts of that key. *)
Theorem compute_pass_lookup
        (inv : Investigation K Label Data F) (exact : bool) (adj : F)
        (d : dict K (StatsDict Label F)) :
  rearranges iter_order ->
  distinct_keys inv ->
  outcome (compute_inv K_eq_dec K_leb Label_eq_dec iter_order exact adj inv)
  = Ok d ->
  Permutation (keys d) (keys (contexts inv))
  /\ forall sens ctxts,
       In (sens, ctxts) (contexts inv) ->
       exists r,
         dict_find K_eq_dec sens d = Some r
         /\ outcome (compute_stats Label_eq_dec ctxts exact adj) = Ok r.
Proof. apply compute_inv_lookup. Qed.

End ComputePass.

(** ** The scatter pass *)

Section ScatterPass.

Variables K Label Data F : Type.
Variable K_eq_dec : forall a b : K, {a = b} + {a <> b}.



Lemma repriced_refl (s : Stats Label F) : repriced s s.
Proof. now left. Qed.

Lemma replace_pval_twice (s : Stats Label F) (p q : F) :
  replace_pval (replace_pval s p) q = replace_pval s q.
Proof.
  destruct s as [r|df]; cbn [replace_pval]; now rewrite removelast_last.
Qed.

Lemma repriced_trans (s1 s2 s3 : Stats Label F) :
  repriced s1 s2 -> repriced s2 s3 -> repriced s1 s3.
Proof.
  intros [->|[p ->]] [->|[q ->]].
  - now left.
  - right. now exists q.
  - right. now exists p.
  - right. exists q. apply replace_pval_twice.
Qed.

Lemma same_rows_refl (r : StatsDict Label F) : same_rows r r.
Proof.
  repeat split. induction (d_stats r); constructor;
    [apply repriced_refl | assumption].
Qed.

Lemma Forall2_repriced_trans (l1 l2 l3 : list (Stats Label F)) :
  Forall2 (@repriced _ _) l1 l2 -> Forall2 (@repriced _ _) l2 l3 ->
  Forall2 (@repriced _ _) l1 l3.
Proof.
  intros H12; revert l3; induction H12 as [|x y l1 l2 Hxy _ IH];
    intros l3 H23; inversion H23; subst; constructor.
  - eapply repriced_trans; eassumption.
  - now apply IH.
Qed.

Lemma same_rows_trans (r1 r2 r3 : StatsDict Label F) :
  same_rows r1 r2 -> same_rows r2 r3 -> same_rows r1 r3.
Proof.
  intros (Hi & Hc & Hs) (Hi' & Hc' & Hs'). repeat split; try congruence.
  eapply Forall2_repriced_trans; eassumption.
Qed.

Let kept (d d' : dict K (StatsDict Label F)) : Prop :=
  Forall2 (fun kv kv' => fst kv' = fst kv /\ same_rows (snd kv) (snd kv'))
          d d'.

Lemma kept_refl d : kept d d.
Proof.
  induction d as [|kv d IH]; constructor; [|exact IH].
  split; [reflexivity | apply same_rows_refl].
Qed.

Lemma kept_trans d1 d2 d3 : kept d1 d2 -> kept d2 d3 -> kept d1 d3.
Proof.
  intros H12; revert d3; induction H12 as [|x y d1 d2 [Hk Hs] _ IH];
    intros d3 H23; inversion H23 as [|? z ? d3' [Hk' Hs'] H23']; subst;
    constructor.
  - split; [congruence | eapply same_rows_trans; eassumption].
  - now apply IH.
Qed.

Lemma kept_find d d' (k : K) (v : StatsDict Label F) :
  kept d d' -> dict_find K_eq_dec k d = Some v ->
  exists v', dict_find K_eq_dec k d' = Some v' /\ same_rows v v'.
Proof.
  induction 1 as [|[k1 v1] [k2 v2] d d' [Hk Hs] _ IH]; cbn [dict_find];
    [discriminate|].
  cbn [fst snd] in *. subst k2.
  destruct (K_eq_dec k k1) as [->|Hne]; [|exact IH].
  intros H. injection H as <-. now exists v2.
Qed.

Lemma kept_keys d d' : kept d d' -> keys d' = keys d.
Proof.
  induction 1 as [|kv kv' d d' [Hk _] _ IH]; [reflexivity|].
  cbn [keys map]. f_equal; assumption.
Qed.

Lemma kept_dict_set d (k : K) (v v' : StatsDict Label F) :
  dict_find K_eq_dec k d = Some v -> same_rows v v' ->
  kept d (dict_set K_eq_dec k v' d).
Proof.
  intros Hf Hs. induction d as [|[k1 v1] d IH]; [discriminate|].
  cbn [dict_find dict_set] in *.
  destruct (K_eq_dec k k1) as [->|Hne].
  - injection Hf as ->. constructor; [now split | apply kept_refl].
  - constructor; [split; [reflexivity | apply same_rows_refl] | now apply IH].
Qed.

Lemma scatter_rows_repriced (sts : list (Stats Label F)) (pc : list F)
      (idx : nat) (sts' : list (Stats Label F)) (idx' : nat) :
  scatter_rows sts pc idx = Ok (sts', idx') ->
  Forall2 (@repriced _ _) sts sts'.
Proof.
  revert idx sts' idx'; induction sts as [|s sts IH]; intros idx sts' idx' H.
  - cbn in H. injection H as <- _. constructor.
  - cbn [scatter_rows] in H.
    destruct (getitem pc idx) as [p|e]; [|discriminate]. cbn [rbind] in H.
    destruct (scatter_rows sts pc (S idx)) as [[rest' i']|e] eqn:Hr;
      [|discriminate].
    cbn in H. injection H as <- _. constructor.
    + right. now exists p.
    + eapply IH, Hr.
Qed.

Lemma scatter_inv_kept (items : list (K * list (Ctx Label Data F)))
      d (pc : list F) (idx : nat) d' (idx' : nat) :
  scatter_inv K_eq_dec items d pc idx = Ok (d', idx') -> kept d d'.
Proof.
  revert d idx; induction items as [|[sens ctxts] items IH]; intros d idx H.
  - cbn in H. injection H as <- _. apply kept_refl.
  - cbn [scatter_inv] in H. unfold dict_get in H.
    destruct (dict_find K_eq_dec sens d) as [res|] eqn:Hf; [|discriminate].
    cbn [rbind] in H.
    destruct (scatter_rows (d_stats res) pc idx) as [[new i']|e] eqn:Hr;
      [|discriminate].
    cbn [rbind] in H. apply IH in H.
    eapply kept_trans; [|exact H].
    apply kept_dict_set with (v := res); [exact Hf|].
    repeat split. cbn [d_stats]. eapply scatter_rows_repriced, Hr.
Qed.


End ScatterPass.

(** ** Scalar attributes, from the input to the output *)

Section ScalarRows.

Variables K Label Data F : Type.
Variable K_eq_dec : forall a b : K, {a = b} + {a <> b}.
Variable K_leb : K -> K -> bool.
Variable Label_eq_dec : forall a b : Label, {a = b} + {a <> b}.
Variable ops : Arith F.
Variable iter_order : list K -> list K.
Variable multipletests : F -> list F -> result (list F).

Lemma reassemble_inv_scalar (items : list (K * list (Ctx Label Data F)))
      (d d'' : dict K (StatsDict Label F)) (sens : K)
      (c0 : Ctx Label Data F) (rest : list (Ctx Label Data F))
      (r0 : list F) :
  NoDup (map fst items) ->
  reassemble_inv K_eq_dec items d = Ok d'' ->
  In (sens, c0 :: rest) items ->
  stats (metric c0) = Row r0 ->
  dict_find K_eq_dec sens d'' = dict_find K_eq_dec sens d.
Proof.
  revert d; induction items as [|[s1 ctxts1] items IH]; intros d Hnd H Hin Hrow;
    [contradiction|].
  cbn [map fst] in Hnd. inversion Hnd as [|? ? Hnotin Hnd']; subst.
  destruct Hin as [Heq|Hin].
  - injection Heq as -> ->. cbn [reassemble_inv] in H. rewrite Hrow in H.
    destruct (reassemble_inv_spec _ _ _ _ K_eq_dec items d d'' Hnd' H)
      as (_ & Hother & _).
    now apply Hother.
  - assert (Hne : sens <> s1).
    { intros ->. apply Hnotin. apply in_map_iff.
      now exists (s1, c0 :: rest). }
    cbn [reassemble_inv] in H.
    destruct ctxts1 as [|c1 rest1]; [discriminate|].
    destruct (stats (metric c1)) as [row|ref].
    + now apply IH.
    + unfold dict_get in H.
      destruct (dict_find K_eq_dec s1 d) as [res|]; [|discriminate].
      cbn [rbind] in H.
      destruct (reform ref res) as [res'|e]; [|discriminate].
      cbn [rbind] in H. rewrite (IH _ Hnd' H Hin Hrow).
      now apply dict_find_set_other.
Qed.

Lemma Forall2_map_left {A B C : Type} (R : B -> C -> Prop) (f : A -> B)
      (l : list A) (l' : list C) :
  Forall2 R (map f l) l' -> Forall2 (fun a c => R (f a) c) l l'.
Proof.
  revert l'; induction l as [|a l IH]; intros l' H; inversion H; subst;
    constructor; [assumption | now apply IH].
Qed.

Lemma investigation_scalars_kept exact adj
      (inv : Investigation K Label Data F)
      d (pc : list F) (idx : nat) d' (idx' : nat) d'' :
  rearranges iter_order -> distinct_keys inv ->
  outcome (compute_inv K_eq_dec K_leb Label_eq_dec iter_order exact adj inv)
  = Ok d ->
  Forall (fun s => exists p, last_field s = Ok p)
         (flat_map (@d_stats _ _) (values d)) ->
  scatter_inv K_eq_dec (contexts inv) d pc idx = Ok (d', idx') ->
  reassemble_inv K_eq_dec (contexts inv) d' = Ok d'' ->
  scalars_kept K_eq_dec exact adj inv (strip K_eq_dec iter_order d'').
Proof.
  intros Hre Hnd Hc Hread Hs Hr sens c0 rest r0 Hin Hrow.
  destruct (compute_inv_lookup _ _ _ _ K_eq_dec K_leb Label_eq_dec iter_order
              inv exact adj d Hre Hnd Hc) as [Hkd Hlook].
  destruct (Hlook sens (c0 :: rest) Hin) as (r & Hfd & Hcs).
  apply scatter_inv_kept in Hs.
  destruct (kept_find _ _ _ K_eq_dec _ _ sens r Hs Hfd) as (r' & Hfd' & Hsame).
  destruct (reassemble_inv_spec _ _ _ _ K_eq_dec _ _ _ Hnd Hr) as (Hk'' & _ & _).
  assert (Hnd'' : NoDup (keys d'')).
  { rewrite Hk'', (kept_keys _ _ _ _ _ Hs).
    eapply Permutation_NoDup; [apply Permutation_sym, Hkd | exact Hnd]. }
  destruct (strip_spec _ _ _ K_eq_dec iter_order d'' Hre Hnd'') as [_ Hfs].
  exists (d_stats r'). split.
  - rewrite Hfs, (reassemble_inv_scalar _ _ _ sens c0 rest r0 Hnd Hr Hin Hrow).
    now rewrite Hfd'.
  - unfold compute_stats in Hcs. rewrite mapM_call_compute in Hcs.
    cbn [lift bind app] in Hcs. rewrite Hrow in Hcs. cbn in Hcs.
    injection Hcs as <-. destruct Hsame as (_ & _ & Hrows).
    cbn [d_stats] in Hrows.
    change (computed exact adj c0 :: map (computed exact adj) rest)
      with (map (computed exact adj) (c0 :: rest)) in *.
    apply Forall2_map_left in Hrows.
    assert (Hall : forall c, In c (c0 :: rest) ->
                             exists p, last_field (computed exact adj c) = Ok p).
    { intros c Hc'. rewrite Forall_forall in Hread. apply Hread.
      apply in_flat_map. exists {| d_stats := map (computed exact adj) (c0 :: rest);
                                   d_index := None; d_cols := None |}.
      split.
      - apply in_map_iff. eexists (sens, _). split; [reflexivity|].
        now apply dict_find_In in Hfd.
      - cbn [d_stats]. now apply in_map. }
    unfold rows_kept. clear -Hrows Hall.
    induction Hrows as [|c s' l l' Hcs _ IH]; constructor.
    + destruct (Hall c (or_introl eq_refl)) as [p Hp].
      apply last_field_ok in Hp. destruct Hp as [r Hr].
      exists r, p. rewrite Hr in Hcs |- *.
      destruct Hcs as [->|[q ->]].
      * now exists p.
      * exists q. split; [reflexivity|]. apply replace_pval_last.
    + apply IH. intros c' Hc'. apply Hall. now right.
Qed.

Lemma pipeline_scalars_kept exact adj
      (investigations : list (Investigation K Label Data F)) all_stats :
  rearranges iter_order ->
  Forall2 (fun inv d =>
             outcome (compute_inv K_eq_dec K_leb Label_eq_dec iter_order
                                  exact adj inv) = Ok d)
          investigations all_stats ->
  Forall (@distinct_keys _ _ _ _) investigations ->
  Forall (fun s => exists p, last_field s = Ok p) (flat_stats all_stats) ->
  forall (pc : list F) (idx : nat) scattered reformed,
    scatter K_eq_dec investigations all_stats pc idx = Ok scattered ->
    reassemble K_eq_dec investigations scattered = Ok reformed ->
    Forall2 (scalars_kept K_eq_dec exact adj) investigations
            (map (strip K_eq_dec iter_order) reformed).
Proof.
  intros Hre Hc; induction Hc as [|inv d invs ds Hd _ IH];
    intros Hnd Hread pc idx scattered reformed Hs Hr.
  - cbn in Hs. injection Hs as <-. cbn in Hr. injection Hr as <-. constructor.
  - inversion Hnd; subst.
    unfold flat_stats in Hread. cbn [flat_map] in Hread.
    apply Forall_app in Hread. destruct Hread as [Hread1 Hread2].
    cbn [scatter] in Hs.
    destruct (scatter_inv K_eq_dec (contexts inv) d pc idx)
      as [[d' idx']|e] eqn:Hsi; [|discriminate].
    cbn [rbind] in Hs.
    destruct (scatter K_eq_dec invs ds pc idx') as [rest|e] eqn:Hsr;
      [|discriminate].
    cbn [rbind] in Hs. injection Hs as <-.
    cbn [reassemble] in Hr.
    destruct (reassemble_inv K_eq_dec (contexts inv) d') as [d''|e] eqn:Hri;
      [|discriminate].
    cbn [rbind] in Hr.
    destruct (reassemble K_eq_dec invs rest) as [rest'|e] eqn:Hrr;
      [|discriminate].
    cbn [rbind] in Hr. injection Hr as <-. cbn [map].
    constructor.
    + eapply investigation_scalars_kept; eassumption.
    + eapply IH; eassumption.
Qed.

(** X7. When [compute_all_stats] returns, every attribute whose first
    metric is scalar holds in the output one row per context, in the order
    of the contexts, and each row has the fields that [metric.compute]
    returned for that context but for the last one: whatever the order in
    which the dictionaries iterate, the module rewrites p-values only. *)
Theorem scalar_rows_keep_their_fields
        (investigations : list (Investigation K Label Data F))
        (exact : bool) (level : F) out :
  rearranges iter_order ->
  Forall (@distinct_keys _ _ _ _) investigations ->
  outcome (compute_all_stats K_eq_dec K_leb Label_eq_dec ops iter_order
                             multipletests investigations exact level)
  = Ok out ->
  exists total adj,
    total_hypotheses investigations = Ok total
    /\ adj_level ops level total = Ok adj
    /\ Forall2 (scalars_kept K_eq_dec exact adj) investigations out.
Proof.
  intros Hre Hnd Hok.
  destruct (total_hypotheses investigations) as [total|e] eqn:Ht.
  2:{ unfold compute_all_stats in Hok. rewrite Ht in Hok. discriminate. }
  destruct (adj_level ops level total) as [adj|e] eqn:Ha.
  2:{ unfold compute_all_stats in Hok.
      rewrite Ht in Hok. cbn [lift bind tell app] in Hok.
      rewrite Ha in Hok. discriminate. }
  exists total, adj. split; [reflexivity|]. split; [exact Ha|].
  destruct (compute_all_stats_run _ _ _ _ K_eq_dec K_leb Label_eq_dec ops
              iter_order multipletests investigations exact level total adj
              Ht Ha) as [_ Hout].
  rewrite Hout in Hok.
  destruct (outcome (mapM _ investigations)) as [all_stats|e] eqn:Hcp;
    [|discriminate].
  cbn [rbind] in Hok.
  destruct (all_pvals ops all_stats) as [pvals|e] eqn:Hp; [|discriminate].
  cbn [rbind] in Hok.
  destruct (multipletests _ pvals) as [pc|e]; [|discriminate].
  cbn [rbind] in Hok.
  destruct (scatter K_eq_dec investigations all_stats pc 0)
    as [scattered|e] eqn:Hs; [|discriminate].
  cbn [rbind] in Hok.
  destruct (reassemble K_eq_dec investigations scattered)
    as [reformed|e] eqn:Hr; [|discriminate].
  cbn [rbind] in Hok. injection Hok as <-.
  rewrite outcome_mapM in Hcp. apply rmap_Forall2 in Hcp.
  eapply pipeline_scalars_kept; try eassumption.
  rewrite all_pvals_clamped in Hp.
  destruct (rmap (@last_field Label F) (flat_stats all_stats)) as [ps|e] eqn:Hl;
    [|discriminate].
  apply rmap_Forall2 in Hl. clear -Hl.
  induction Hl as [|s p l l' Hs _ IH]; constructor; [now exists p | exact IH].
Qed.

End ScalarRows.

(** ** The reassembly pass *)

Section ReassemblyPass.

Variables K Label Data F : Type.
Variable K_eq_dec : forall a b : K, {a = b} + {a <> b}.
Variable K_leb : K -> K -> bool.
Variable Label_eq_dec : forall a b : Label, {a = b} + {a <> b}.
Variable ops : Arith F.
Variable iter_order : list K -> list K.
Variable multipletests : F -> list F -> result (list F).

Lemma reassemble_In (investigations : list (Investigation K Label Data F))
      (inv : Investigation K Label Data F) :
  forall scattered reformed,
    reassemble K_eq_dec investigations scattered = Ok reformed ->
    In inv investigations ->
    exists d' d'', reassemble_inv K_eq_dec (contexts inv) d' = Ok d''.
Proof.
  induction investigations as [|inv0 invs IH]; intros scattered reformed H Hin;
    [contradiction|].
  cbn [reassemble] in H. destruct scattered as [|d ds]; [discriminate|].
  destruct (reassemble_inv K_eq_dec (contexts inv0) d) as [d''|e] eqn:Hri;
    [|discriminate].
  cbn [rbind] in H.
  destruct (reassemble K_eq_dec invs ds) as [rest|e] eqn:Hrr; [|discriminate].
  destruct Hin as [->|Hin]; [now exists d, d''|].
  eapply IH; eassumption.
Qed.

Lemma reform_ok (ref : DataFrame Label F) (res res' : StatsDict Label F) :
  reform ref res = Ok res' ->
  exists index cols rs,
    d_index res = Some index
    /\ d_cols res = Some cols
    /\ rmap (@as_row Label F) (d_stats res) = Ok rs
    /\ length rs = length index
    /\ len ref <> 0
    /\ length rs / len ref <> 0
    /\ d_stats res' =
       map Table
           (map (fun part => {| columns := cols; rows := part |})
                (split_sizes (section_sizes (length rs) (length rs / len ref))
                             (combine index rs))).
Proof.
  unfold reform. intros H.
  destruct (d_index res) as [index|]; [|discriminate]. cbn [item rbind] in H.
  destruct (d_cols res) as [cols|]; [|discriminate]. cbn [item rbind] in H.
  unfold pd_DataFrame in H.
  destruct (rmap (@as_row Label F) (d_stats res)) as [rs|e]; [|discriminate].
  cbn [rbind] in H.
  destruct (Nat.eqb_spec (length rs) (length index)) as [Hlen|Hlen];
    [|discriminate].
  cbn [rbind] in H. unfold len at 1 in H. cbn [rows] in H.
  rewrite length_combine, <- Hlen, Nat.min_id in H.
  unfold floordiv in H. destruct (len ref) as [|r0] eqn:Hr; [discriminate|].
  cbn [rbind] in H. unfold np_array_split in H.
  destruct (length rs / S r0) as [|n0] eqn:Hn; [discriminate|].
  cbn [rbind columns rows] in H. unfold len in H. cbn [rows] in H.
  rewrite length_combine, <- Hlen, Nat.min_id in H.
  apply (f_equal (fun x => match x with
                           | Ok s => d_stats s
                           | Raise _ => []
                           end)) in H.
  cbn beta iota in H. cbn [d_stats] in H.
  exists index, cols, rs. repeat split; try assumption; try discriminate.
  - rewrite Hn. discriminate.
  - rewrite <- H, Hn. reflexivity.
Qed.

(** X8. A tabular attribute whose reference table has no row keeps
    [compute_all_stats] from returning: when nothing fails earlier, the
    reassembly pass divides by [len(metric.stats)]. *)
Theorem empty_reference_table_never_returns
        (investigations : list (Investigation K Label Data F))
        (inv : Investigation K Label Data F) (sens : K)
        (c0 : Ctx Label Data F) (rest : list (Ctx Label Data F))
        (ref : DataFrame Label F) (exact : bool) (level : F) :
  distinct_keys inv ->
  In inv investigations ->
  In (sens, c0 :: rest) (contexts inv) ->
  stats (metric c0) = Table ref ->
  len ref = 0 ->
  forall out,
    outcome (compute_all_stats K_eq_dec K_leb Label_eq_dec ops iter_order
                               multipletests investigations exact level)
    <> Ok out.
Proof.
  intros Hnd Hinv Hin Href Hlen out Hok.
  destruct (total_hypotheses investigations) as [total|e] eqn:Ht.
  2:{ unfold compute_all_stats in Hok. rewrite Ht in Hok. discriminate. }
  destruct (adj_level ops level total) as [adj|e] eqn:Ha.
  2:{ unfold compute_all_stats in Hok.
      rewrite Ht in Hok. cbn [lift bind tell app] in Hok.
      rewrite Ha in Hok. discriminate. }
  destruct (compute_all_stats_run _ _ _ _ K_eq_dec K_leb Label_eq_dec ops
              iter_order multipletests investigations exact level total adj
              Ht Ha) as [_ Hout].
  rewrite Hout in Hok.
  destruct (outcome (mapM _ investigations)) as [all_stats|e];
    [|discriminate].
  cbn [rbind] in Hok.
  destruct (all_pvals ops all_stats) as [pvals|e]; [|discriminate].
  cbn [rbind] in Hok.
  destruct (multipletests _ pvals) as [pc|e]; [|discriminate].
  cbn [rbind] in Hok.
  destruct (scatter K_eq_dec investigations all_stats pc 0)
    as [scattered|e]; [|discriminate].
  cbn [rbind] in Hok.
  destruct (reassemble K_eq_dec investigations scattered)
    as [reformed|e] eqn:Hr; [|discriminate].
  destruct (reassemble_In _ inv _ _ Hr Hinv) as (d' & d'' & Hri).
  destruct (reassemble_inv_spec _ _ _ _ K_eq_dec _ _ _ Hnd Hri)
    as (_ & _ & Htab).
  destruct (Htab sens c0 rest ref Hin Href) as (res & res' & _ & Hre & _).
  apply reform_ok in Hre.
  destruct Hre as (index & cols & rs & _ & _ & _ & _ & Hne & _).
  contradiction.
Qed.

(** X9. A batch in which the first metric of every attribute is scalar
    goes through the reassembly pass unchanged. *)
Theorem scalar_batch_not_reshaped
        (investigations : list (Investigation K Label Data F))
        (all_stats : list (dict K (StatsDict Label F))) :
  (forall inv sens ctxts,
      In inv investigations -> In (sens, ctxts) (contexts inv) ->
      exists c0 rest r0, ctxts = c0 :: rest /\ stats (metric c0) = Row r0) ->
  length all_stats = length investigations ->
  reassemble K_eq_dec investigations all_stats = Ok all_stats.
Proof.
  revert all_stats; induction investigations as [|inv invs IH];
    intros all_stats Hscalar Hlen.
  - reflexivity.
  - destruct all_stats as [|d ds]; [discriminate|].
    cbn [reassemble].
    assert (Hinv : reassemble_inv K_eq_dec (contexts inv) d = Ok d).
    { assert (H : forall sens ctxts,
                 In (sens, ctxts) (contexts inv) ->
                 exists c0 rest r0,
                   ctxts = c0 :: rest /\ stats (metric c0) = Row r0).
      { intros sens ctxts Hin.
        apply (Hscalar inv sens ctxts); [now left | exact Hin]. }
      clear -H. induction (contexts inv) as [|[sens ctxts] items IHi];
        [reflexivity|].
      destruct (H sens ctxts (or_introl eq_refl)) as (c0 & rest & r0 & -> & Hr).
      cbn [reassemble_inv]. rewrite Hr. apply IHi.
      intros s c Hin. apply (H s c). now right. }
    rewrite Hinv. cbn [rbind]. rewrite IH; [reflexivity| |].
    + intros inv' sens ctxts Hin Hin'.
      apply (Hscalar inv' sens ctxts); [now right | exact Hin'].
    + cbn in Hlen. now injection Hlen.
Qed.

Lemma list_sum_repeat (n k : nat) : list_sum (repeat n k) = k * n.
Proof.
  induction k as [|k IH]; [reflexivity|].
  cbn [repeat]. change (list_sum (n :: repeat n k))
    with (n + list_sum (repeat n k)). rewrite IH. lia.
Qed.

Lemma section_sizes_sum (n k : nat) :
  k <> 0 -> list_sum (section_sizes n k) = n.
Proof.
  intros Hk. unfold section_sizes.
  rewrite list_sum_app, !list_sum_repeat.
  pose proof (Nat.div_mod_eq n k) as Hdm.
  pose proof (Nat.mod_upper_bound n k Hk) as Hlt.
  nia.
Qed.

Lemma firstn_plus {A : Type} (n m : nat) (l : list A) :
  firstn n l ++ firstn m (skipn n l) = firstn (n + m) l.
Proof.
  revert l; induction n as [|n IH]; intros l; [reflexivity|].
  destruct l as [|a l]; [cbn; now rewrite firstn_nil|].
  cbn [firstn skipn app Nat.add]. now rewrite IH.
Qed.

Lemma concat_split_sizes {A : Type} (sizes : list nat) (l : list A) :
  concat (split_sizes sizes l) = firstn (list_sum sizes) l.
Proof.
  revert l; induction sizes as [|n sizes IH]; intros l; [reflexivity|].
  cbn [split_sizes concat]. rewrite IH.
  change (list_sum (n :: sizes)) with (n + list_sum sizes).
  apply firstn_plus.
Qed.

Lemma length_split_sizes {A : Type} (sizes : list nat) (l : list A) :
  length (split_sizes sizes l) = length sizes.
Proof.
  revert l; induction sizes as [|n sizes IH]; intros l; [reflexivity|].
  cbn [split_sizes length]. now rewrite IH.
Qed.

(** X10. Re-forming the entry of a tabular attribute loses no row and no
    label: the sub-tables it returns have the columns of the entry and, put
    end to end, are the rows of the entry with their labels, in order; they
    are [len(res) / len(metric.stats)] in number, whether or not the rows
    divide evenly. *)
Theorem reform_keeps_every_row
        (ref : DataFrame Label F) (res res' : StatsDict Label F) :
  reform ref res = Ok res' ->
  exists index cols rs parts,
    d_index res = Some index
    /\ d_cols res = Some cols
    /\ rmap (@as_row Label F) (d_stats res) = Ok rs
    /\ d_stats res' = map Table parts
    /\ concat (map (@rows _ _) parts) = combine index rs
    /\ Forall (fun part => columns part = cols) parts
    /\ length parts = length rs / len ref.
Proof.
  intros H. apply reform_ok in H.
  destruct H as (index & cols & rs & Hi & Hc & Hrs & Hlen & Hne & Hn & Hst).
  exists index, cols, rs. eexists. repeat split; try eassumption.
  - rewrite map_map. cbn [rows]. rewrite map_id, concat_split_sizes.
    rewrite section_sizes_sum by exact Hn.
    apply firstn_all2. rewrite length_combine. lia.
  - apply Forall_forall. intros part Hin. apply in_map_iff in Hin.
    now destruct Hin as (x & <- & _).
  - rewrite length_map, length_split_sizes. unfold section_sizes.
    rewrite length_app, !repeat_length.
    pose proof (Nat.mod_upper_bound (length rs) _ Hn). lia.
Qed.

End ReassemblyPass.

(** ** The adjusted level, the trace and the flatten pass *)

(** X11. In exact arithmetic the adjusted level [1 - (1 - level) / T]
    grows with the number of hypotheses and with the caller's level: more
    tests, or a higher overall level, never make the level handed to the
    metrics lower. *)
Theorem adj_level_monotone (level level' : Q) (total total' : nat)
        (adj adj' : Q) :
  (level <= level')%Q -> (level' <= 1)%Q -> 1 <= total -> total <= total' ->
  adj_level Qops level total = Ok adj ->
  adj_level Qops level' total' = Ok adj' ->
  (adj <= adj')%Q.
Proof.
  intros Hl Hl1 Ht Htt Ha Ha'. unfold adj_level in Ha, Ha'.
  destruct total as [|n]; [lia|]. destruct total' as [|n']; [lia|].
  injection Ha as <-. injection Ha' as <-.
  cbn [Qops sub div one of_nat].
  change (Z.pos (Pos.of_succ_nat n)) with (Z.of_nat (S n)).
  change (Z.pos (Pos.of_succ_nat n')) with (Z.of_nat (S n')).
  set (t := inject_Z (Z.of_nat (S n))).
  set (t' := inject_Z (Z.of_nat (S n'))).
  assert (Ht1 : (1 <= t)%Q).
  { subst t. change 1%Q with (inject_Z 1). rewrite <- Zle_Qle. lia. }
  assert (Htt' : (t <= t')%Q).
  { subst t t'. rewrite <- Zle_Qle. lia. }
  assert (Hx : (t * ((1 - level) / t) == 1 - level)%Q)
    by (apply Qmult_div_r; lra).
  assert (Hx' : (t' * ((1 - level') / t') == 1 - level')%Q)
    by (apply Qmult_div_r; lra).
  set (x := ((1 - level) / t)%Q) in *.
  set (x' := ((1 - level') / t')%Q) in *.
  assert (Hx0 : (0 <= x)%Q) by nra.
  assert (Hle : (t' * x' <= t' * x)%Q) by nra.
  assert (Hxx : (x' <= x)%Q) by nra.
  lra.
Qed.

Lemma adj_level_monotone_witness :
  (90 # 100 <= 95 # 100)%Q /\ (95 # 100 <= 1)%Q /\ 1 <= 2 /\ 2 <= 5
  /\ (1 - (1 - (90 # 100)) / inject_Z 2
      <= 1 - (1 - (95 # 100)) / inject_Z 5)%Q.
Proof.
  assert (H1 : (90 # 100 <= 95 # 100)%Q) by discriminate.
  assert (H2 : (95 # 100 <= 1)%Q) by discriminate.
  assert (H3 : 1 <= 2) by lia.
  assert (H4 : 2 <= 5) by lia.
  repeat (split; [assumption|]).
  exact (adj_level_monotone _ _ 2 5 _ _ H1 H2 H3 H4 eq_refl eq_refl).
Defined.

Section TraceAndFlatten.

Variables K Label Data F : Type.
Variable K_eq_dec : forall a b : K, {a = b} + {a <> b}.
Variable K_leb : K -> K -> bool.
Variable Label_eq_dec : forall a b : Label, {a = b} + {a <> b}.
Variable ops : Arith F.
Variable iter_order : list K -> list K.
Variable multipletests : F -> list F -> result (list F).

(** X12. Whatever its input and however it ends, [compute_all_stats]
    makes its calls in one order: nothing at all, or the log line with the
    total, then calls of [metric.compute] only, then at most one call of
    the correction, with [alpha = 1 - level]; and it returns a result only
    after it has called the correction. *)
Theorem calls_in_order
        (investigations : list (Investigation K Label Data F))
        (exact : bool) (level : F) :
  let run := compute_all_stats K_eq_dec K_leb Label_eq_dec ops iter_order
                               multipletests investigations exact level in
  (trace run = []
   \/ exists total calls rest,
        total_hypotheses investigations = Ok total
        /\ trace run = LogInfo total :: calls ++ rest
        /\ Forall (fun ev => is_compute ev = true) calls
        /\ (rest = []
            \/ exists pvals,
                 rest = [Multipletests pvals (sub ops (one ops) level)]))
  /\ (forall out,
         outcome run = Ok out ->
         exists pvals,
           In (Multipletests pvals (sub ops (one ops) level)) (trace run)).
Proof.
  intros run. subst run.
  destruct (total_hypotheses investigations) as [total|e] eqn:Ht.
  2:{ unfold compute_all_stats. rewrite Ht. split; [now left|].
      intros out H. discriminate. }
  destruct (adj_level ops level total) as [adj|e] eqn:Ha.
  2:{ unfold compute_all_stats. rewrite Ht. cbn [lift bind tell app].
      rewrite Ha. cbn. split.
      - right. exists total, [], []. repeat split; [constructor | now left].
      - intros out H. discriminate. }
  destruct (compute_all_stats_run _ _ _ _ K_eq_dec K_leb Label_eq_dec ops
              iter_order multipletests investigations exact level total adj
              Ht Ha) as [Htr Hout].
  assert (Hcalls : Forall (fun ev : Event Data F => is_compute ev = true)
                     (trace (mapM (compute_inv K_eq_dec K_leb Label_eq_dec
                                               iter_order exact adj)
                                  investigations))).
  { eapply Forall_impl;
      [|apply trace_mapM_Forall; intros inv _;
        apply compute_inv_trace_Forall].
    intros [n|d l e|p a]; cbn; tauto. }
  split.
  - right. eexists total, _, _. split; [reflexivity|].
    split; [exact Htr|]. split; [exact Hcalls|].
    destruct (outcome (mapM _ investigations)) as [all_stats|e];
      [|now left].
    destruct (all_pvals ops all_stats) as [pvals|e]; [|now left].
    right. now exists pvals.
  - intros out Hok. rewrite Hout in Hok. rewrite Htr.
    destruct (outcome (mapM _ investigations)) as [all_stats|e];
      [|discriminate].
    cbn [rbind] in Hok.
    destruct (all_pvals ops all_stats) as [pvals|e]; [|discriminate].
    exists pvals. right. apply in_or_app. right. now left.
Qed.

(** X13. The flatten pass hands the raw p-values over as they are, in the
    order of the rows, when none of them is below [1e-180]. *)
Theorem flatten_keeps_pvalues_above_floor
        (all_stats : list (dict K (StatsDict Label F))) (ps : list F) :
  rmap (@last_field Label F) (flat_stats all_stats) = Ok ps ->
  Forall (fun p => ltb ops p (floor ops) = false) ps ->
  all_pvals ops all_stats = Ok ps.
Proof.
  intros Hl Hp. rewrite all_pvals_clamped, Hl. cbn [rbind]. f_equal.
  clear Hl. induction Hp as [|p ps Hlt _ IH]; [reflexivity|].
  cbn [map]. unfold pymax at 1. rewrite Hlt. f_equal. exact IH.
Qed.

End TraceAndFlatten.

(** ** When the total is zero *)

Section ZeroCount.

Variables K Label Data F : Type.

Lemma hypotheses_of_zero (ctxts : list (Ctx Label Data F)) :
  ctxts <> [] -> (hypotheses_of ctxts = 0 <-> rowless_reference ctxts).
Proof.
  intros Hne. destruct ctxts as [|c0 rest]; [congruence|].
  cbn [hypotheses_of]. split.
  - destruct (stats (metric c0)) as [r|ref] eqn:Hs; cbn [length]; [lia|].
    intros H. exists c0, rest, ref. repeat split; [assumption|]. nia.
  - intros (c & rest' & ref & Heq & Hs & Hlen).
    injection Heq as <- <-. rewrite Hs, Hlen. lia.
Qed.

Lemma list_sum_zero (l : list nat) :
  list_sum l = 0 <-> Forall (fun n => n = 0) l.
Proof.
  induction l as [|n l IH].
  - split; [constructor | reflexivity].
  - change (list_sum (n :: l)) with (n + list_sum l). split.
    + intros H. constructor; [lia | apply IH; lia].
    + intros H. inversion H; subst. apply IH in H3. lia.
Qed.

(** X15. [num_hypotheses] counts zero for an investigation exactly when
    each of its attributes has contexts and a tabular first metric whose
    reference table is empty: an attribute with a scalar metric, or with a
    reference table that has rows, keeps the total away from the division
    by zero. *)
Theorem zero_count_characterised (inv : Investigation K Label Data F) :
  num_hypotheses inv = Ok 0
  <-> Forall (@rowless_reference _ _ _) (values (contexts inv)).
Proof.
  unfold num_hypotheses. split.
  - intros H. pose proof (num_hypotheses_loop_ok _ _ _ _ _ _ H) as Hne.
    rewrite (num_hypotheses_loop_sum _ _ _ _ 0 Hne) in H.
    injection H as H. cbn [Nat.add] in H. apply list_sum_zero in H.
    rewrite Forall_forall in *. intros ctxts Hin.
    apply hypotheses_of_zero; [now apply Hne|].
    apply H. now apply in_map.
  - intros H.
    assert (Hne : Forall (fun ctxts : list (Ctx Label Data F) => ctxts <> [])
                         (values (contexts inv))).
    { eapply Forall_impl; [|exact H].
      intros ctxts (c0 & rest & ref & -> & _). discriminate. }
    rewrite (num_hypotheses_loop_sum _ _ _ _ 0 Hne). f_equal. cbn [Nat.add].
    apply list_sum_zero. apply Forall_forall. intros n Hin.
    apply in_map_iff in Hin. destruct Hin as (ctxts & <- & Hin).
    rewrite Forall_forall in H, Hne.
    apply hypotheses_of_zero; [now apply Hne | now apply H].
Qed.

End ZeroCount.

(** ** The properties above at sample inputs *)

Lemma Z_leb_total_order : total_order Z.leb.
Proof.
  repeat split.
  - intros a b. destruct (Z.leb_spec a b); [now left|].
    right. apply Z.leb_le. lia.
  - intros a b Hab Hba. apply Z.leb_le in Hab, Hba. lia.
  - intros a b c Hab Hbc. apply Z.leb_le in Hab, Hbc. apply Z.leb_le. lia.
Qed.

Lemma mixed_distinct_keys : distinct_keys Example.mixed.
Proof.
  unfold distinct_keys. cbn. repeat constructor; cbn; intuition discriminate.
Qed.

Lemma compute_pass_order_independent_witness :
  total_order Z.leb
  /\ distinct_keys Example.mixed
  /\ Permutation (contexts Example.mixed) (contexts Edge.mixed_swapped)
  /\ compute_inv Z.eq_dec Z.leb string_dec insertion_order true (95 # 100)
                 Example.mixed
     = compute_inv Z.eq_dec Z.leb string_dec insertion_order true (95 # 100)
                   Edge.mixed_swapped.
Proof.
  pose proof Z_leb_total_order as Hord.
  pose proof mixed_distinct_keys as Hnd.
  assert (Hperm : Permutation (contexts Example.mixed)
                              (contexts Edge.mixed_swapped))
    by apply perm_swap.
  repeat (split; [assumption|]).
  exact (compute_pass_order_independent _ _ _ _ Z.eq_dec Z.leb string_dec
           insertion_order _ _ true (95 # 100) Hord Hnd Hperm).
Defined.

Lemma compute_pass_lookup_witness :
  rearranges (@insertion_order Z)
  /\ distinct_keys Example.mixed
  /\ exists d,
       outcome (compute_inv Z.eq_dec Z.leb string_dec insertion_order true
                            (95 # 100) Example.mixed) = Ok d
       /\ Permutation (keys d) (keys (contexts Example.mixed))
       /\ forall sens ctxts,
            In (sens, ctxts) (contexts Example.mixed) ->
            exists r,
              dict_find Z.eq_dec sens d = Some r
              /\ outcome (compute_stats string_dec ctxts true (95 # 100))
                 = Ok r.
Proof.
  pose proof (@insertion_order_rearranges Z) as Hre.
  pose proof mixed_distinct_keys as Hnd.
  repeat (split; [assumption|]).
  eexists. split; [vm_compute; reflexivity|].
  apply (compute_pass_lookup _ _ _ _ Z.eq_dec Z.leb string_dec insertion_order
           Example.mixed true (95 # 100) _ Hre Hnd).
  vm_compute. reflexivity.
Defined.




Lemma scalar_rows_keep_their_fields_witness :
  rearranges (@insertion_order Z)
  /\ Forall (@distinct_keys _ _ _ _) [Example.mixed]
  /\ exists out,
       outcome (Example.run insertion_order [Example.mixed] true (95 # 100))
       = Ok out
       /\ exists total adj,
            total_hypotheses [Example.mixed] = Ok total
            /\ adj_level Qops (95 # 100) total = Ok adj
            /\ Forall2 (scalars_kept Z.eq_dec true adj) [Example.mixed] out.
Proof.
  pose proof (@insertion_order_rearranges Z) as Hre.
  assert (Hnd : Forall (@distinct_keys _ _ _ _) [Example.mixed])
    by (constructor; [apply mixed_distinct_keys | constructor]).
  repeat (split; [assumption|]).
  eexists. split; [vm_compute; reflexivity|].
  apply (scalar_rows_keep_their_fields _ _ _ _ Z.eq_dec Z.leb string_dec Qops
           insertion_order holm [Example.mixed] true (95 # 100) _ Hre Hnd).
  vm_compute. reflexivity.
Defined.

Lemma empty_reference_table_never_returns_witness :
  let c := {| metric := Edge2.rowless; data := 1 |} in
  distinct_keys Edge2.with_rowless
  /\ In Edge2.with_rowless [Edge2.with_rowless]
  /\ In (2%Z, [c]) (contexts Edge2.with_rowless)
  /\ stats (metric c) = Table Edge2.no_coefs
  /\ len Edge2.no_coefs = 0
  /\ forall out,
       outcome (Example.run insertion_order [Edge2.with_rowless] true
                            (95 # 100)) <> Ok out.
Proof.
  intros c.
  assert (Hnd : distinct_keys Edge2.with_rowless).
  { unfold distinct_keys. cbn. repeat constructor; cbn; intuition discriminate. }
  assert (Hinv : In Edge2.with_rowless [Edge2.with_rowless]) by now left.
  assert (Hin : In (2%Z, [c]) (contexts Edge2.with_rowless))
    by (right; left; reflexivity).
  assert (Href : stats (metric c) = Table Edge2.no_coefs) by reflexivity.
  assert (Hlen : len Edge2.no_coefs = 0) by reflexivity.
  repeat (split; [assumption|]).
  exact (empty_reference_table_never_returns _ _ _ _ Z.eq_dec Z.leb string_dec
           Qops insertion_order holm _ _ _ _ _ _ true (95 # 100)
           Hnd Hinv Hin Href Hlen).
Defined.

Lemma scalar_batch_not_reshaped_witness :
  let computed_rows : list (dict Z (StatsDict string Q)) :=
    [[(1%Z, {| d_stats := [Row [95 # 100; 1 # 100]; Row [95 # 100; 2 # 100];
                           Row [95 # 100; 3 # 100]];
               d_index := None; d_cols := None |})]] in
  (forall (inv : Example.Inv) sens ctxts,
      In inv [Example.three_contexts] -> In (sens, ctxts) (contexts inv) ->
      exists c0 rest r0, ctxts = c0 :: rest /\ stats (metric c0) = Row r0)
  /\ reassemble Z.eq_dec [Example.three_contexts] computed_rows
     = Ok computed_rows.
Proof.
  intros computed_rows.
  assert (H : forall (inv : Example.Inv) sens ctxts,
             In inv [Example.three_contexts] ->
             In (sens, ctxts) (contexts inv) ->
             exists c0 rest r0,
               ctxts = c0 :: rest /\ stats (metric c0) = Row r0).
  { intros inv sens ctxts [<-|[]] [Heq|[]]. injection Heq as _ <-.
    eexists _, _, _. split; reflexivity. }
  split; [exact H|].
  apply (scalar_batch_not_reshaped _ _ _ _ Z.eq_dec
           [Example.three_contexts] computed_rows H).
  reflexivity.
Defined.

Lemma reform_keeps_every_row_witness :
  exists res',
    reform (Example.coefs 0 0) Sample.uneven = Ok res'
    /\ exists index cols rs parts,
         d_index Sample.uneven = Some index
         /\ d_cols Sample.uneven = Some cols
         /\ rmap (@as_row string Q) (d_stats Sample.uneven) = Ok rs
         /\ d_stats res' = map Table parts
         /\ concat (map (@rows _ _) parts) = combine index rs
         /\ Forall (fun part => columns part = cols) parts
         /\ length parts = length rs / len (Example.coefs 0 0).
Proof.
  eexists. split; [vm_compute; reflexivity|].
  apply (reform_keeps_every_row _ _ (Example.coefs 0 0) Sample.uneven).
  vm_compute. reflexivity.
Defined.

Lemma flatten_keeps_pvalues_above_floor_witness :
  let ps := [5 # 100; 1 # 100; 2 # 100; 3 # 100]%Q in
  rmap (@last_field string Q) (flat_stats [Sample.entries]) = Ok ps
  /\ Forall (fun p => ltb Qops p (floor Qops) = false) ps
  /\ all_pvals Qops [Sample.entries] = Ok ps.
Proof.
  intros ps.
  assert (Hl : rmap (@last_field string Q) (flat_stats [Sample.entries])
               = Ok ps) by reflexivity.
  assert (Hp : Forall (fun p => ltb Qops p (floor Qops) = false) ps)
    by (repeat constructor; vm_compute; reflexivity).
  repeat (split; [assumption|]).
  exact (flatten_keeps_pvalues_above_floor _ _ _ Qops _ _ Hl Hp).
Defined.
